(** * fractal/config: the interactive configuration wizard

    A shallow embedding of package [config] of SkySingh04/fractal, in its two
    variants (the registry-driven one and the earlier two-key one), and the
    properties of the specification checked against it.

    The package talks to three collaborators that are not part of it:
    the terminal (promptui), the process-wide settings store (viper) and the
    integration registry.  Each is given an explicit model below; the
    functions of the package itself are transcribed statement by statement
    over those models. *)

From stdpp Require Import gmap strings list fin_maps.
From Equations Require Import Equations.
From Equations.Prop Require Import Logic.

Open Scope string_scope.
Open Scope list_scope.

(** ** Go values shared by both variants *)

(** The line-feed character of the Go literal ["\n"]. *)
Definition LF : string := String (Ascii.ascii_of_nat 10) EmptyString.

(** Go's [error] values as this package builds them: [errors.New(msg)] and
    [fmt.Errorf(prefix + "%w", cause)]. *)
Inductive error : Type :=
  | errors_New (msg : string)
  | fmt_Errorf (prefix : string) (cause : error).

#[global] Instance error_eq_dec : EqDecision error.
Proof. solve_decision. Defined.

(** The [Error()] method. *)
Fixpoint Error (e : error) : string :=
  match e with
  | errors_New msg => msg
  | fmt_Errorf prefix cause => prefix +:+ Error cause
  end.

(** A Go result pair [(value, err)]: either a value with a nil error, or an
    error with the zero value. *)
Inductive result (A : Type) : Type :=
  | Ok (a : A)
  | Err (e : error).
Arguments Ok {A} a.
Arguments Err {A} e.

#[global] Instance result_eq_dec `{EqDecision A} : EqDecision (result A).
Proof. solve_decision. Defined.

Definition is_Ok {A} (r : result A) : Prop :=
  match r with Ok _ => True | Err _ => False end.

(** ** The terminal (promptui)

    The human is a script of replies consumed one per prompt.  A reply is a
    line of text that was confirmed with enter, or a failure of the prompt
    (interrupt, end of input, ...).  When the script is exhausted the input
    has reached its end and promptui reports [ErrEOF]. *)
Inductive Reply : Type :=
  | Entered (text : string)
  | Aborted (e : error).

#[global] Instance Reply_eq_dec : EqDecision Reply.
Proof. solve_decision. Defined.

Definition ErrEOF : error := errors_New "^D".
Definition ErrInterrupt : error := errors_New "^C".
Definition ErrAbort : error := errors_New EmptyString.

(** What the user sees and what came back, in order. *)
Inductive Event : Type :=
  | EvSelect (label : string) (items : list string) (r : result string)
  | EvPrompt (label : string) (r : result string)
  | EvPrintln (line : string)
  | EvInfof (line : string).

#[global] Instance Event_eq_dec : EqDecision Event.
Proof. solve_decision. Defined.

(** An event that is a prompt which did not deliver a value. *)
Definition prompt_failed (ev : Event) : Prop :=
  match ev with
  | EvSelect _ _ (Err _) | EvPrompt _ (Err _) => True
  | _ => False
  end.

(** An event that is a prompt, of either sort. *)
Definition is_prompt (ev : Event) : bool :=
  match ev with
  | EvSelect _ _ _ | EvPrompt _ _ => true
  | _ => false
  end.

(** ** The settings store (viper)

    Values that the package stores and reads back: a string, or a
    string-keyed map of strings (the per-integration field values and the
    error-handling policy).  Other YAML shapes (numbers, sequences, deeper
    nesting) are outside this model. *)
Inductive value : Type :=
  | VString (s : string)
  | VStringMap (m : gmap string string).

#[global] Instance value_eq_dec : EqDecision value.
Proof. solve_decision. Defined.

(** [strings.ToLower] on the ASCII range: the letters A to Z are folded and
    every other byte is left alone.  On a string of ASCII bytes this is what
    Go does; on other strings Go follows the Unicode tables, and the
    properties that fold arbitrary keys are stated for ASCII keys. *)
Definition lower_ascii (c : Ascii.ascii) : Ascii.ascii :=
  let n := Ascii.nat_of_ascii c in
  if (65 <=? n)%nat && (n <=? 90)%nat then Ascii.ascii_of_nat (n + 32) else c.

Fixpoint ToLower (s : string) : string :=
  match s with
  | EmptyString => EmptyString
  | String c s' => String (lower_ascii c) (ToLower s')
  end.

(** viper's [copyAndInsensitiviseMap]: a fresh map with every key
    lower-cased.  The Go loop is [for key, val := range m { nm[lower(key)] =
    val }]; when two keys differ only in case the survivor depends on the
    iteration order, which Go leaves open and [map_fold] fixes.  When no two
    keys meet after lower-casing every order gives the same map
    ([lowerEach_any_order]). *)
Definition insensitivise {A} (f : A → A) (m : gmap string A) : gmap string A :=
  map_fold (λ key val nm, <[ToLower key := f val]> nm) ∅ m.

Definition copyAndInsensitiviseMap (m : gmap string string) : gmap string string :=
  insensitivise id m.

(** viper's [toCaseInsensitiveValue]: maps are copied with lower-cased keys,
    anything else is kept. *)
Definition toCaseInsensitiveValue (v : value) : value :=
  match v with
  | VStringMap m => VStringMap (copyAndInsensitiviseMap m)
  | VString s => VString s
  end.

(** The global viper instance: the file it is pointed at, the [override]
    register written by [Set], and the [config] register filled by
    [ReadInConfig].  Keys of both registers are lower-case; [override] has
    priority. *)
Record Viper : Type := mkViper {
  configFile : string;
  override : gmap string value;
  config : gmap string value;
}.

#[global] Instance Viper_eq_dec : EqDecision Viper.
Proof. solve_decision. Defined.

Definition viper_New : Viper :=
  {| configFile := EmptyString; override := ∅; config := ∅ |}.

(** What a path on disk holds, as far as viper's decoder is concerned. *)
Inductive File : Type :=
  | Parsed (settings : gmap string value)
  | Unparsable.

#[global] Instance File_eq_dec : EqDecision File.
Proof. solve_decision. Defined.

(** ** The world the package runs in *)
Record World : Type := mkWorld {
  stdin : list Reply;          (* replies the human has yet to give *)
  trace : list Event;          (* what was shown so far, oldest first *)
  viper : Viper;               (* the process-global settings *)
  disk : gmap string File;     (* the file system *)
  readonly : gset string;      (* paths that cannot be written *)
}.

#[global] Instance World_eq_dec : EqDecision World.
Proof. solve_decision. Defined.

(** A Go function with effects: it threads the world and returns a result
    pair. *)
Definition M (A : Type) : Type := World → result A * World.

Definition ret {A} (a : A) : M A := λ w, (Ok a, w).
Definition fail {A} (e : error) : M A := λ w, (Err e, w).

(** [v, err := m; if err != nil { return nil, err }; k v] *)
Definition bind {A B} (m : M A) (k : A → M B) : M B :=
  λ w, match m w with
       | (Ok a, w') => k a w'
       | (Err e, w') => (Err e, w')
       end.

(** [v, err := m; if err != nil { return nil, fmt.Errorf(prefix + "%w", err) }] *)
Definition wrapping {A} (prefix : string) (m : M A) : M A :=
  λ w, match m w with
       | (Ok a, w') => (Ok a, w')
       | (Err e, w') => (Err (fmt_Errorf prefix e), w')
       end.

Notation "x ⇐ m ;; k" := (bind m (λ x, k))
  (at level 100, m at next level, right associativity, only parsing).

Definition emit (ev : Event) (w : World) : World :=
  {| stdin := stdin w; trace := trace w ++ [ev]; viper := viper w;
     disk := disk w; readonly := readonly w |}.

Definition set_viper (v : Viper) (w : World) : World :=
  {| stdin := stdin w; trace := trace w; viper := v;
     disk := disk w; readonly := readonly w |}.

Definition set_disk (d : gmap string File) (w : World) : World :=
  {| stdin := stdin w; trace := trace w; viper := viper w;
     disk := d; readonly := readonly w |}.

Definition pop_stdin (w : World) : World :=
  {| stdin := tail (stdin w); trace := trace w; viper := viper w;
     disk := disk w; readonly := readonly w |}.

(** [promptui.Prompt{Label: label}.Run()]: one line of free text. *)
Definition answer (r : option Reply) : result string :=
  match r with
  | Some (Entered text) => Ok text
  | Some (Aborted e) => Err e
  | None => Err ErrEOF
  end.

Definition Prompt_Run (label : string) : M string :=
  λ w, let r := answer (head (stdin w)) in
       (r, emit (EvPrompt label r) (pop_stdin w)).

(** [promptui.Select{Label: label, Items: items}.Run()]: one choice from the
    list.  Only a listed item can be confirmed; a reply naming anything else
    leaves the widget without a selection. *)
Definition choice (items : list string) (r : option Reply) : result string :=
  match r with
  | Some (Entered text) =>
      if decide (text ∈ items) then Ok text else Err ErrAbort
  | Some (Aborted e) => Err e
  | None => Err ErrEOF
  end.

Definition Select_Run (label : string) (items : list string) : M string :=
  λ w, let r := choice items (head (stdin w)) in
       (r, emit (EvSelect label items r) (pop_stdin w)).

(** A Go function without results acts on the world only. *)
Definition exec {A} (p : World → World) (k : M A) : M A := λ w, k (p w).

Notation "'call' p ;; k" := (exec p k)
  (at level 100, p at next level, right associativity, only parsing).

(** [fmt.Println(args...)] *)
Definition Println (line : string) : World → World := emit (EvPrintln line).

(** [logger.Infof(...)] *)
Definition Infof (line : string) : World → World := emit (EvInfof line).

(** [AskForMode] prompts the user to select between starting the HTTP server
    or using the CLI (the same in both variants). *)
Definition AskForMode : M string :=
  wrapping "failed to select application mode: "
    (Select_Run "Choose Application Mode" ["Start HTTP Server"; "Use CLI"]).

(** *** viper operations used by the package

    Every key the package spells out is free of the path delimiter ['.'], so
    such a key names one top-level entry.  viper splits a key that holds the
    delimiter and nests; the operations below do not, and the properties
    about keys of the caller's choosing are stated for keys without it. *)

(** [viper.SetConfigFile(in)] *)
Definition viper_SetConfigFile (path : string) : World → World :=
  λ w, set_viper {| configFile := path; override := override (viper w);
                    config := config (viper w) |} w.

(** [viper.ReadInConfig()]: decode the file into the [config] register; on
    any failure the register keeps what it held. *)
Definition viper_ReadInConfig : M unit :=
  λ w, match disk w !! configFile (viper w) with
       | None =>
           (Err (errors_New ("open " +:+ configFile (viper w)
                             +:+ ": no such file or directory")), w)
       | Some Unparsable =>
           (Err (errors_New "While parsing config: cannot unmarshal"), w)
       | Some (Parsed settings) =>
           (Ok tt,
            set_viper {| configFile := configFile (viper w);
                         override := override (viper w);
                         config := insensitivise toCaseInsensitiveValue settings |} w)
       end.

(** [viper.Set(key, value)]: case-insensitive for the key, and maps are
    stored as lower-cased copies. *)
Definition viper_Set (key : string) (val : value) : World → World :=
  λ w, set_viper {| configFile := configFile (viper w);
                    override := <[ToLower key := toCaseInsensitiveValue val]>
                                  (override (viper w));
                    config := config (viper w) |} w.

(** viper's [find]: the [override] register first, then [config]. *)
Definition viper_find (key : string) (v : Viper) : option value :=
  match override v !! ToLower key with
  | Some x => Some x
  | None => config v !! ToLower key
  end.

(** [viper.GetString(key)]: [cast.ToString] of what is found; a missing key
    and a map both give the empty string. *)
Definition viper_GetString (key : string) (v : Viper) : string :=
  match viper_find key v with
  | Some (VString s) => s
  | _ => EmptyString
  end.

(** [viper.GetStringMap(key)]: [cast.ToStringMap] of what is found; a missing
    key gives the empty map.  (A string holding JSON text would be decoded by
    [cast]; the model reads every string as the empty map.) *)
Definition viper_GetStringMap (key : string) (v : Viper) : gmap string string :=
  match viper_find key v with
  | Some (VStringMap m) => m
  | _ => ∅
  end.

(** [viper.AllSettings()]: every leaf of either register, [override] first.
    A map without leaves contributes no key, unless a [config] scalar keeps
    the key listed. *)
Definition nonempty (m : gmap string string) : option value :=
  if decide (m = ∅) then None else Some (VStringMap m).

Definition merge_setting (o c : option value) : option value :=
  match o, c with
  | Some (VString s), _ => Some (VString s)
  | Some (VStringMap m), Some (VStringMap m') => nonempty (m ∪ m')
  | Some (VStringMap m), Some (VString _) => Some (VStringMap m)
  | Some (VStringMap m), None => nonempty m
  | None, Some (VString s) => Some (VString s)
  | None, Some (VStringMap m') => nonempty m'
  | None, None => None
  end.

Definition viper_AllSettings (v : Viper) : gmap string value :=
  merge merge_setting (override v) (config v).

(** [viper.WriteConfigAs(filename)]: encode all settings and replace the
    file.  The file is recorded by the settings that were encoded; the
    decoder gives them back for plain keys and plain texts (see
    [plain_settings]), and the properties that read a written file again are
    stated for these. *)
Definition viper_WriteConfigAs (filename : string) : M unit :=
  λ w, if decide (filename ∈ readonly w)
       then (Err (errors_New ("open " +:+ filename +:+ ": permission denied")), w)
       else (Ok tt, set_disk (<[filename := Parsed (viper_AllSettings (viper w))]>
                                (disk w)) w).

(** ** The integration registry and reflection *)

(** [reflect.Kind] *)
Inductive Kind : Type :=
  | Invalid | Bool | Int | Int8 | Int16 | Int32 | Int64
  | Uint | Uint8 | Uint16 | Uint32 | Uint64 | Uintptr
  | Float32 | Float64 | Complex64 | Complex128
  | Array | Chan | Func | Interface | Map | Pointer | Slice
  | String_ | Struct | UnsafePointer.

#[global] Instance Kind_eq_dec : EqDecision Kind.
Proof. solve_decision. Defined.

(** [reflect.Type], as far as the package looks at it: its printed form
    ([%s]) and its kind. *)
Record Type_ : Type := mkType { Type_String : string; Type_Kind : Kind }.

(** [reflect.StructField]; [Name] is a Go identifier. *)
Record StructField : Type := mkField { Name : string; FieldType : Type_ }.

(** Kinds of values that are neither invalid, nor a pointer, nor a struct. *)
Definition plain_kind (k : Kind) : bool :=
  match k with
  | Invalid | Pointer | Struct => false
  | _ => true
  end.

(** [reflect.Value] of an integration instance: the zero Value (a nil
    interface, or what [Elem] gives on a nil pointer), a pointer, a struct
    with its declared fields in order, or a value of any other kind. *)
Inductive Value : Type :=
  | Zero
  | PtrTo (elem : Value)
  | StructOf (fields : list StructField)
  | Plain (k : Kind) (Hk : plain_kind k = true).

Definition Value_Kind (v : Value) : Kind :=
  match v with
  | Zero => Invalid
  | PtrTo _ => Pointer
  | StructOf _ => Struct
  | Plain k _ => k
  end.

(** [Value.Elem()], called on pointers only. *)
Definition Value_Elem (v : Value) : Value :=
  match v with
  | PtrTo elem => elem
  | _ => Zero
  end.

(** The fields [Type().Field(0)], ..., [Type().Field(NumField()-1)], called
    on structs only. *)
Definition Value_Fields (v : Value) : list StructField :=
  match v with
  | StructOf fields => fields
  | _ => []
  end.

(** Modelled from the spec: package [registry] of this repository is not
    among the sources.  Section 6 gives its interface: the names of the
    registered sources and destinations, and a lookup by name that returns an
    instance together with a [found] flag ([None] is [found = false]). *)
Record Registry : Type := mkRegistry {
  GetSources : gset string;
  GetDestinations : gset string;
  GetSource : string → option Value;
  GetDestination : string → option Value;
}.

Module Dynamic.

(** The document type [map[string]interface{}] with the values this package
    puts in it. *)
Abbreviation Document := (gmap string value).

(** [getRegisteredDataSources]: the registered names, in map order. *)
Definition getRegisteredDataSources (reg : Registry) : list string :=
  elements (GetSources reg).

(** [getRegisteredDataDestinations] *)
Definition getRegisteredDataDestinations (reg : Registry) : list string :=
  elements (GetDestinations reg).

(** The loop of [readIntegrationFields] over the declared fields: one prompt
    per field, the answer stored under the field's name. *)
Fixpoint readFields (fields : list StructField) (config : gmap string string)
  : M (gmap string string) :=
  match fields with
  | [] => ret config
  | field :: rest =>
      let fieldName := Name field in
      let fieldType := FieldType field in
      value ⇐ wrapping ("failed to get value for field " +:+ fieldName +:+ ": ")
                (Prompt_Run ("Enter " +:+ fieldName +:+ " (" +:+
                             Type_String fieldType +:+ ")"));;
      readFields rest (<[fieldName := value]> config)
  end.

(** [readIntegrationFields] dynamically prompts for and reads all fields in
    the selected integration struct. *)
Definition readIntegrationFields (reg : Registry) (method : string)
    (isSource : bool) : M (gmap string string) :=
  match (if isSource then GetSource reg method else GetDestination reg method) with
  | None => fail (errors_New "integration not found in registry")
  | Some integration =>
      let val := integration in
      let val := if decide (Value_Kind val = Pointer) then Value_Elem val else val in
      if decide (Value_Kind val ≠ Struct)
      then fail (errors_New "integration is not a struct")
      else readFields (Value_Fields val) ∅
  end.

(** The [for { ... }] loop of [readRules]: it ends on an empty line or on a
    failed prompt, and every prompt that delivers a line consumes a reply. *)
Equations? readRules_loop (ruleType label rules : string) (w : World)
  : result string * World by wf (length (stdin w)) lt :=
  readRules_loop ruleType label rules w with inspect (Prompt_Run label w) := {
    | exist _ (Err e, w') _ =>
        (Err (fmt_Errorf ("failed to read " +:+ ruleType +:+ ": ") e), w');
    | exist _ (Ok line, w') Hrun with decide (line = EmptyString) := {
        | left _ => (Ok rules, w');
        | right _ => readRules_loop ruleType label (rules +:+ line +:+ LF) w' } }.
Proof. destruct (stdin w); simpl in *; [discriminate | lia]. Qed.

(** [readRules] reads validation or transformation rules interactively. *)
Definition readRules (ruleType : string) : M string :=
  readRules_loop ruleType
    ("Enter " +:+ ruleType +:+ " rules (multiline, finish with empty line):") EmptyString.

(** [readErrorHandlingConfig] prompts for the error handling strategy. *)
Definition readErrorHandlingConfig : M (gmap string string) :=
  strategy ⇐ wrapping "failed to read error handling strategy: "
               (Prompt_Run "Enter Error Handling Strategy (e.g., LOG_AND_CONTINUE, STOP_ON_ERROR):");;
  ret {[ "strategy" := strategy ]}.

(** The [for key, value := range config { viper.Set(key, value) }] loop.  Go
    leaves the order of the visits open and [map_fold] fixes one; when no two
    keys meet after lower-casing every order gives the same store
    ([setEach_any_order]). *)
Definition setAll (config : Document) : World → World :=
  λ w, map_fold (λ key val w', viper_Set key val w') w config.

(** [saveConfig] writes the configuration to a config.yaml file.  It has no
    result: a failed write is printed. *)
Definition saveConfig (config : Document) : World → World :=
  λ w, match viper_WriteConfigAs "config.yaml" (setAll config w) with
       | (Err err, w') => Println ("Failed to save configuration: " +:+ Error err) w'
       | (Ok _, w') => Println "Configuration saved to config.yaml" w'
       end.

(** [LoadConfig] attempts to read the configuration from a file. *)
Definition LoadConfig (configFile : string) : M Document :=
  call viper_SetConfigFile configFile;;
  _ ⇐ viper_ReadInConfig;;
  λ w,
    let v := viper w in
    let config : Document :=
      <["inputMethod" := VString (viper_GetString "inputMethod" v)]>
      (<["outputMethod" := VString (viper_GetString "outputMethod" v)]>
      (<["inputconfig" := VStringMap (viper_GetStringMap "inputconfig" v)]>
      (<["outputconfig" := VStringMap (viper_GetStringMap "outputconfig" v)]>
      (<["errorhandling" := VStringMap (viper_GetStringMap "errorhandling" v)]>
      (<["validations" := VString (viper_GetString "validations" v)]>
      (<["transformations" := VString (viper_GetString "transformations" v)]> ∅)))))) in
    (call Infof ("Configuration loaded from " +:+ configFile);; ret config) w.

(** [SetupConfigInteractively] prompts the user to set up input and output
    methods interactively, including all required fields for the selected
    integrations. *)
Definition SetupConfigInteractively (reg : Registry) : M Document :=
  let inputMethods := getRegisteredDataSources reg in
  let outputMethods := getRegisteredDataDestinations reg in
  inputMethod ⇐ wrapping "failed to get input method: "
                  (Select_Run "Select Input Method" inputMethods);;
  inputconfig ⇐ wrapping "failed to get fields for input method: "
                  (readIntegrationFields reg inputMethod true);;
  outputMethod ⇐ wrapping "failed to get output method: "
                   (Select_Run "Select Output Method" outputMethods);;
  outputconfig ⇐ wrapping "failed to get fields for output method: "
                   (readIntegrationFields reg outputMethod false);;
  validations ⇐ wrapping "failed to read validation rules: "
                  (readRules "validations");;
  transformations ⇐ wrapping "failed to read transformation rules: "
                      (readRules "transformations");;
  errorhandling ⇐ wrapping "failed to read error handling configuration: "
                    readErrorHandlingConfig;;
  let config : Document :=
    <["inputMethod" := VString inputMethod]>
    (<["outputMethod" := VString outputMethod]>
    (<["inputconfig" := VStringMap inputconfig]>
    (<["outputconfig" := VStringMap outputconfig]>
    (<["validations" := VString validations]>
    (<["transformations" := VString transformations]>
    (<["errorhandling" := VStringMap errorhandling]> ∅)))))) in
  call saveConfig config;;
  ret config.

End Dynamic.

(** ** The two-key variant (config/main.go) *)

Module Simple.

(** The document type [map[string]string]. *)
Abbreviation Document := (gmap string string).

(** [config[key]] on a Go map: the zero value when the key is missing. *)
Definition index (config : Document) (key : string) : string :=
  default EmptyString (config !! key).

(** [saveConfig] writes the configuration to a config.yaml file. *)
Definition saveConfig (config : Document) : World → World :=
  λ w,
    let w := viper_Set "inputMethod" (VString (index config "inputMethod")) w in
    let w := viper_Set "outputMethod" (VString (index config "outputMethod")) w in
    match viper_WriteConfigAs "config.yaml" w with
    | (Err err, w') => Println ("Failed to save configuration: " +:+ Error err) w'
    | (Ok _, w') => Println "Configuration saved to config.yaml" w'
    end.

(** [LoadConfig] attempts to read the configuration from a file. *)
Definition LoadConfig (configFile : string) : M Document :=
  call viper_SetConfigFile configFile;;
  _ ⇐ viper_ReadInConfig;;
  λ w,
    let v := viper w in
    let config : Document :=
      <["inputMethod" := viper_GetString "inputMethod" v]>
      (<["outputMethod" := viper_GetString "outputMethod" v]> ∅) in
    ret config w.

(** [SetupConfigInteractively] prompts the user to set up input and output
    methods interactively. *)
Definition SetupConfigInteractively : M Document :=
  inputMethod ⇐ wrapping "failed to get input method: "
                  (Select_Run "Select Input Method"
                     ["CSV"; "SQL Database"; "Kafka Queue"; "Cloud Storage"]);;
  outputMethod ⇐ wrapping "failed to get output method: "
                   (Select_Run "Select Output Method"
                      ["SQL Database"; "NoSQL Database"; "CSV Output";
                       "Kafka Queue"; "Cloud Storage"]);;
  let config : Document :=
    <["inputMethod" := inputMethod]> (<["outputMethod" := outputMethod]> ∅) in
  call saveConfig config;;
  ret config.

End Simple.

(** ** A worked session

    The end-to-end scenario of the specification: source CSV with field
    [Path], destination SQL with fields [DSN] and [Table]. *)

Definition string_type : Type_ := {| Type_String := "string"; Type_Kind := String_ |}.

Definition demo_registry : Registry :=
  {| GetSources := {[ "CSV" ]};
     GetDestinations := {[ "SQL" ]};
     GetSource := λ name,
       if decide (name = "CSV")
       then Some (PtrTo (StructOf [ {| Name := "Path"; FieldType := string_type |} ]))
       else None;
     GetDestination := λ name,
       if decide (name = "SQL")
       then Some (PtrTo (StructOf [ {| Name := "DSN"; FieldType := string_type |};
                                    {| Name := "Table"; FieldType := string_type |} ]))
       else None |}.

Definition demo_script : list Reply :=
  [ Entered "CSV"; Entered "/in.csv";
    Entered "SQL"; Entered "postgres://x"; Entered "out";
    Entered "not_null(id)"; Entered EmptyString;
    Entered EmptyString;
    Entered "STOP_ON_ERROR" ].

Definition fresh_world (script : list Reply) : World :=
  {| stdin := script; trace := []; viper := viper_New; disk := ∅; readonly := ∅ |}.

(** ** Vocabulary of the properties *)

(** The settings store and the file system are as they were. *)
Definition same_store (w w' : World) : Prop :=
  viper w' = viper w ∧ disk w' = disk w ∧ readonly w' = readonly w.

(** A step that only talks to the human: it shows prompts only, delivers a
    value only if every prompt did, and its outcome is the same whatever the
    settings store and the file system hold, which it hands on untouched. *)
Definition collects {A} (m : M A) : Prop :=
  ∀ w r w', m w = (r, w') →
    ∃ evs, Forall (λ ev, is_prompt ev = true) evs ∧
           (is_Ok r → Forall (λ ev, ¬ prompt_failed ev) evs) ∧
           ∀ v d ro, m (mkWorld (stdin w) (trace w) v d ro) =
                     (r, mkWorld (stdin w') (trace w ++ evs) v d ro).

(** The document [SetupConfigInteractively] assembles (section 4.5). *)
Definition assemble (inputMethod : string) (inputconfig : gmap string string)
    (outputMethod : string) (outputconfig : gmap string string)
    (validations transformations : string) (errorhandling : gmap string string)
  : gmap string value :=
  <["inputMethod" := VString inputMethod]>
  (<["outputMethod" := VString outputMethod]>
  (<["inputconfig" := VStringMap inputconfig]>
  (<["outputconfig" := VStringMap outputconfig]>
  (<["validations" := VString validations]>
  (<["transformations" := VString transformations]>
  (<["errorhandling" := VStringMap errorhandling]> ∅)))))).

Definition assembled (doc : gmap string value) : Prop :=
  ∃ inputMethod inputconfig outputMethod outputconfig validations
    transformations errorhandling,
    doc = assemble inputMethod inputconfig outputMethod outputconfig
            validations transformations errorhandling.

(** A function that collects and then, only if everything was collected,
    hands a document satisfying [Q] to [saveConfig] and returns it. *)
Definition saves_after_collecting (Q : gmap string value → Prop)
    (m : M (gmap string value)) : Prop :=
  ∀ w r w', m w = (r, w') →
    ∃ rest evs,
      Forall (λ ev, is_prompt ev = true) evs ∧
      (∀ doc, r = Ok doc → Q doc ∧ Forall (λ ev, ¬ prompt_failed ev) evs) ∧
      ∀ v d ro, m (mkWorld (stdin w) (trace w) v d ro) =
                match r with
                | Err e => (Err e, mkWorld rest (trace w ++ evs) v d ro)
                | Ok doc => (Ok doc, Dynamic.saveConfig doc
                                       (mkWorld rest (trace w ++ evs) v d ro))
                end.

(** The world with another set of unwritable paths. *)
Definition with_readonly (ro : gset string) (w : World) : World :=
  mkWorld (stdin w) (trace w) (viper w) (disk w) ro.

(** The rule text the specification describes: every line followed by a
    line separator, in order. *)
Fixpoint join_lines (lines : list string) : string :=
  match lines with
  | [] => EmptyString
  | line :: rest => line +:+ LF +:+ join_lines rest
  end.

(** The value [readIntegrationFields] inspects: the instance, or what it
    points to. *)
Definition indirect (v : Value) : Value :=
  if decide (Value_Kind v = Pointer) then Value_Elem v else v.

(** The prompt shown for a field, answered with [text]. *)
Definition field_prompt (field : StructField) (text : string) : Event :=
  EvPrompt ("Enter " +:+ Name field +:+ " (" +:+ Type_String (FieldType field) +:+ ")")
           (Ok text).

(** A flat record in the sense of section 4.1: a struct none of whose fields
    is a nested record, a slice or a map. *)
Definition flat_field (field : StructField) : bool :=
  match Type_Kind (FieldType field) with
  | Struct | Slice | Map => false
  | _ => true
  end.

Definition flat_record (v : Value) : bool :=
  match indirect v with
  | StructOf fields => forallb flat_field fields
  | _ => false
  end.

(** A Kafka source whose broker list is a slice. *)
Definition kafka_registry : Registry :=
  {| GetSources := {[ "Kafka" ]};
     GetDestinations := ∅;
     GetSource := λ name,
       if decide (name = "Kafka")
       then Some (PtrTo (StructOf
              [ {| Name := "Brokers";
                   FieldType := {| Type_String := "[]string"; Type_Kind := Slice |} |};
                {| Name := "Topic"; FieldType := string_type |} ]))
       else None;
     GetDestination := λ _, None |}.

(** The top-level keys as section 3 of the specification spells them. *)
Definition spec_keys : gset string :=
  {[ "inputMethod"; "outputMethod"; "inputConfig"; "outputConfig";
     "validations"; "transformations"; "errorHandling" ]}.

(** The top-level keys as the code spells them (and as the yaml tags of
    [Config] do). *)
Definition document_keys : gset string :=
  {[ "inputMethod"; "outputMethod"; "inputconfig"; "outputconfig";
     "validations"; "transformations"; "errorhandling" ]}.

(** [m'] is [m] with its keys lower-cased: the keys of [m'] are the
    lower-cased keys of [m], and a key of [m] that no other key of [m] meets
    after lower-casing keeps its value. *)
Definition lowered (m m' : gmap string string) : Prop :=
  dom m' = set_map ToLower (dom m) ∧
  ∀ k x, m !! k = Some x →
         (∀ k', k' ∈ dom m → ToLower k' = ToLower k → k' = k) →
         m' !! ToLower k = Some x.

(** A registry whose only source is registered as a constructor function. *)
Definition factory_registry : Registry :=
  {| GetSources := {[ "Clock" ]}; GetDestinations := ∅;
     GetSource := λ _, Some (Plain Func eq_refl);
     GetDestination := λ _, None |}.

(** The same session, interrupted at the first destination field. *)
Definition interrupted_script : list Reply :=
  [ Entered "CSV"; Entered "/in.csv"; Entered "SQL"; Aborted ErrInterrupt ].

(** The worked session in a directory that cannot be written. *)
Definition locked_world : World :=
  {| stdin := demo_script; trace := []; viper := viper_New; disk := ∅;
     readonly := {[ "config.yaml" ]} |}.

(** The document of the worked session, and what loading it back gives. *)
Definition demo_document : gmap string value :=
  assemble "CSV" {[ "Path" := "/in.csv" ]}
    "SQL" (<["DSN" := "postgres://x"]> {[ "Table" := "out" ]})
    ("not_null(id)" +:+ LF) EmptyString {[ "strategy" := "STOP_ON_ERROR" ]}.

Definition demo_reloaded : gmap string value :=
  assemble "CSV" {[ "path" := "/in.csv" ]}
    "SQL" (<["dsn" := "postgres://x"]> {[ "table" := "out" ]})
    ("not_null(id)" +:+ LF) EmptyString {[ "strategy" := "STOP_ON_ERROR" ]}.

(** A settings file with an input method, rules and input fields, but no
    output method. *)
Definition stored_file : gmap string value :=
  <["InputMethod" := VString "CSV"]>
  (<["validations" := VString "a>0"]>
  (<["inputconfig" := VStringMap {[ "path" := "/in.csv" ]}]> ∅)).

(** The number of prompts among the events. *)
Definition prompts (evs : list Event) : nat :=
  length (filter (λ ev, is_prompt ev = true) evs).

(** A step that reads one reply per prompt it shows and shows nothing after a
    prompt that failed. *)
Definition orderly {A} (m : M A) : Prop :=
  ∀ w r w', m w = (r, w') →
    ∃ evs, trace w' = trace w ++ evs ∧
           stdin w' = drop (prompts evs) (stdin w) ∧
           ∀ i ev, evs !! i = Some ev → prompt_failed ev → S i = length evs.

(** The shape of a document collected against the registry [reg]: both
    methods are registered names whose lookup gave a struct, the two field
    maps have the names of the struct's fields as keys, each rule text is a
    sequence of non-empty lines with their newlines, and the error handling
    holds the strategy alone. *)
Definition well_shaped (reg : Registry) (doc : gmap string value) : Prop :=
  ∃ inputMethod inputconfig outputMethod outputconfig vlines tlines strategy
    source destination,
    doc = assemble inputMethod inputconfig outputMethod outputconfig
            (join_lines vlines) (join_lines tlines) {[ "strategy" := strategy ]} ∧
    inputMethod ∈ GetSources reg ∧
    GetSource reg inputMethod = Some source ∧
    Value_Kind (indirect source) = Struct ∧
    dom inputconfig = list_to_set (Name <$> Value_Fields (indirect source)) ∧
    outputMethod ∈ GetDestinations reg ∧
    GetDestination reg outputMethod = Some destination ∧
    Value_Kind (indirect destination) = Struct ∧
    dom outputconfig = list_to_set (Name <$> Value_Fields (indirect destination)) ∧
    Forall (λ line, line ≠ EmptyString) vlines ∧
    Forall (λ line, line ≠ EmptyString) tlines.

(** The choices hard-coded in the two-key variant. *)
Definition simple_inputs : list string :=
  ["CSV"; "SQL Database"; "Kafka Queue"; "Cloud Storage"].
Definition simple_outputs : list string :=
  ["SQL Database"; "NoSQL Database"; "CSV Output"; "Kafka Queue"; "Cloud Storage"].

(** A process that has read a settings file holding rules and a batch
    size. *)
Definition loaded_world : World :=
  {| stdin := []; trace := [];
     viper := {| configFile := "config.yaml"; override := ∅;
                 config := <["batchsize" := VString "100"]>
                           {[ "validations" := VString "a>0" ]} |};
     disk := ∅; readonly := ∅ |}.

(** [config] holds the answers [texts] to the prompts of [fields]: its keys
    are the field names, and each name is bound to the answer to its (last)
    prompt. *)
Definition holds_answers (fields : list StructField) (texts : list string)
    (config : gmap string string) : Prop :=
  dom config = list_to_set (Name <$> fields) ∧
  ∀ i field text, fields !! i = Some field → texts !! i = Some text →
    Name field ∉ Name <$> drop (S i) fields → config !! Name field = Some text.

(** What [LoadConfig] returns under a key that nothing is stored under: the
    empty map for the three map-valued keys, the empty string for the rest. *)
Definition zero_value (key : string) : value :=
  if decide (key ∈ ["inputconfig"; "outputconfig"; "errorhandling"])
  then VStringMap ∅ else VString EmptyString.

(** A world whose disk holds [stored_file] as config.yaml. *)
Definition stored_world : World :=
  mkWorld [] [] viper_New {[ "config.yaml" := Parsed stored_file ]} ∅.

(** A registry whose destination SQL is listed but cannot be handed out. *)
Definition half_registry : Registry :=
  {| GetSources := {[ "CSV" ]};
     GetDestinations := {[ "SQL" ]};
     GetSource := GetSource demo_registry;
     GetDestination := λ _, None |}.

(** ** Keys and texts on which the store is modelled exactly

    The model of viper follows the library on keys and texts of the kind
    the package handles, and the properties that pass arbitrary keys or texts
    through the store are stated for these:

    - Go's [strings.ToLower] maps the letters A to Z and nothing else on a
      string of ASCII bytes; on other strings it follows the Unicode tables,
      which [ToLower] does not.
    - [viper.Set] splits a key at the delimiter ['.'] and nests; [viper_Set]
      keeps every key as one entry.
    - Go visits the entries of a map in no fixed order, so when two keys of a
      map meet after lower-casing the survivor is not determined;
      [Dynamic.setAll] and [insensitivise] visit them in one order.
    - A file that viper wrote is taken to be read back as written when its
      texts are made of printable ASCII characters and line feeds and do not
      begin with white space; text beginning with a tab, for one, is written
      in a form that is not read back. *)

(** Every byte of [s] satisfies [p]. *)
Fixpoint every (p : Ascii.ascii → bool) (s : string) : bool :=
  match s with
  | EmptyString => true
  | String c s' => p c && every p s'
  end.

Definition ascii_byte (c : Ascii.ascii) : bool :=
  (Ascii.nat_of_ascii c <? 128)%nat.

(** A string of ASCII bytes: on these [ToLower] is [strings.ToLower]. *)
Definition ascii_text (s : string) : bool := every ascii_byte s.

(** A visible ASCII character other than the key delimiter ['.']. *)
Definition key_byte (c : Ascii.ascii) : bool :=
  let n := Ascii.nat_of_ascii c in
  (33 <=? n)%nat && (n <=? 126)%nat && negb (n =? 46)%nat.

(** A key that names one entry: not empty, visible ASCII, no delimiter.  Go
    identifiers in ASCII, and so the field names of such structs, are of this
    kind, as are the seven keys of the document. *)
Definition plain_key (k : string) : bool :=
  match k with
  | EmptyString => false
  | String _ _ => every key_byte k
  end.

(** A printable ASCII character or a line feed. *)
Definition text_byte (c : Ascii.ascii) : bool :=
  let n := Ascii.nat_of_ascii c in
  ((32 <=? n)%nat && (n <=? 126)%nat) || (n =? 10)%nat.

Definition blank_byte (c : Ascii.ascii) : bool :=
  let n := Ascii.nat_of_ascii c in
  (n =? 32)%nat || (n =? 10)%nat.

(** Text that the YAML encoder writes and the decoder reads back unchanged:
    printable ASCII and line feeds, not beginning with white space. *)
Definition plain_text (s : string) : bool :=
  match s with
  | EmptyString => true
  | String c _ => negb (blank_byte c) && every text_byte s
  end.

(** The keys of [m] are plain. *)
Definition plain_keys {A} (m : gmap string A) : Prop :=
  map_Forall (λ k _, plain_key k = true) m.

(** No two keys of [m] meet after lower-casing. *)
Definition distinct_lowered {A} (m : gmap string A) : Prop :=
  set_Forall (λ k, set_Forall (λ k', ToLower k' = ToLower k → k' = k) (dom m))
             (dom m).

(** A map of strings with plain keys and plain texts. *)
Definition plain_map (m : gmap string string) : Prop :=
  map_Forall (λ k s, plain_key k = true ∧ plain_text s = true) m.

Definition plain_value (x : value) : Prop :=
  match x with
  | VString s => plain_text s = true
  | VStringMap m => plain_map m
  end.

#[global] Instance plain_value_dec x : Decision (plain_value x).
Proof. destruct x; apply _. Defined.

(** Settings (a register of the store, a document, the content of a file)
    with plain keys and plain texts throughout. *)
Definition plain_settings (m : gmap string value) : Prop :=
  map_Forall (λ k x, plain_key k = true ∧ plain_value x) m.

(** A document whose keys the store tells apart, whatever the order in which
    they are visited: its keys are plain and distinct after lower-casing, and
    so are the keys of every map in it. *)
Definition told_apart {A} (m : gmap string A) : Prop :=
  plain_keys m ∧ distinct_lowered m.

Definition nested_told_apart (x : value) : Prop :=
  match x with
  | VStringMap m => told_apart m
  | VString _ => True
  end.

#[global] Instance nested_told_apart_dec x : Decision (nested_told_apart x).
Proof. destruct x; apply _. Defined.

Definition unambiguous (doc : gmap string value) : Prop :=
  told_apart doc ∧ map_Forall (λ _ x, nested_told_apart x) doc.

(** The loop [for key, value := range config { viper.Set(key, value) }] when
    Go visits the entries in the order of the list, last entry first. *)
Definition setEach (entries : list (string * value)) : World → World :=
  λ w, foldr (uncurry (λ key val w', viper_Set key val w')) w entries.

(** The loop of [copyAndInsensitiviseMap] when Go visits the entries in the
    order of the list, last entry first. *)
Definition lowerEach {A} (f : A → A) (entries : list (string * A))
  : gmap string A :=
  foldr (uncurry (λ key val nm, <[ToLower key := f val]> nm)) ∅ entries.

(** * Properties *)

(** ** Strings and case folding *)

Lemma append_assoc (a b c : string) : (a +:+ b) +:+ c = a +:+ (b +:+ c).
Proof.
  induction a as [|x a IH]; [done|].
  change (String x ((a +:+ b) +:+ c) = String x (a +:+ (b +:+ c))).
  by rewrite IH.
Qed.

Lemma lower_ascii_idemp c : lower_ascii (lower_ascii c) = lower_ascii c.
Proof. by destruct c as [[] [] [] [] [] [] [] []]. Qed.

Lemma ToLower_idemp s : ToLower (ToLower s) = ToLower s.
Proof.
  induction s as [|c s IH]; simpl; [done|].
  by rewrite lower_ascii_idemp, IH.
Qed.

(** The loop [for key, val := range m { nm[lower(key)] = f(val) }] into a map
    [base]. *)
Section fold_lower.
Context {A : Type} (f : A → A).

Let fold_lower (base m : gmap string A) : gmap string A :=
  map_fold (λ key val nm, <[ToLower key := f val]> nm) base m.

Lemma fold_lower_dom base m :
  dom (fold_lower base m) = dom base ∪ set_map ToLower (dom m).
Proof.
  unfold fold_lower.
  apply (map_fold_weak_ind (λ r m, dom r = dom base ∪ set_map ToLower (dom m))).
  - rewrite dom_empty_L, set_map_empty. by rewrite (right_id_L ∅ (∪)).
  - intros k x m' r _ IH.
    rewrite !dom_insert_L, IH, set_map_union_L, set_map_singleton_L.
    rewrite !(assoc_L (∪)). f_equal. apply (comm_L (∪)).
Qed.

Lemma fold_lower_lookup base m k x :
  m !! k = Some x →
  (∀ k', k' ∈ dom m → ToLower k' = ToLower k → k' = k) →
  fold_lower base m !! ToLower k = Some (f x).
Proof.
  unfold fold_lower.
  apply (map_fold_weak_ind (λ r m,
    m !! k = Some x →
    (∀ k', k' ∈ dom m → ToLower k' = ToLower k → k' = k) →
    r !! ToLower k = Some (f x))).
  - by rewrite lookup_empty.
  - intros i y m' r Hi IH Hk Huniq.
    destruct (decide (i = k)) as [->|Hne].
    + rewrite lookup_insert_eq in Hk. injection Hk as ->.
      by rewrite lookup_insert_eq.
    + rewrite lookup_insert_ne in Hk by done.
      rewrite lookup_insert_ne.
      * apply IH; [done|]. intros k' Hk' Hl. apply Huniq; [|done].
        rewrite dom_insert_L. apply elem_of_union. by right.
      * intros Hl. apply Hne, Huniq; [|done].
        rewrite dom_insert_L. apply elem_of_union. left. by apply elem_of_singleton.
Qed.

Lemma fold_lower_other base m j :
  (∀ k, k ∈ dom m → ToLower k ≠ j) →
  fold_lower base m !! j = base !! j.
Proof.
  unfold fold_lower.
  apply (map_fold_weak_ind (λ r m,
    (∀ k, k ∈ dom m → ToLower k ≠ j) → r !! j = base !! j)).
  - done.
  - intros i y m' r Hi IH Hother.
    rewrite lookup_insert_ne.
    + apply IH. intros k Hk. apply Hother.
      rewrite dom_insert_L. apply elem_of_union. by right.
    + apply Hother. rewrite dom_insert_L. apply elem_of_union. left.
      by apply elem_of_singleton.
Qed.

Lemma fold_lower_keys base m :
  map_Forall (λ k _, ToLower k = k) base →
  map_Forall (λ k _, ToLower k = k) (fold_lower base m).
Proof.
  intros Hbase. unfold fold_lower.
  apply (map_fold_weak_ind (λ r _, map_Forall (λ k _, ToLower k = k) r)); [done|].
  intros i y m' r _ IH. apply map_Forall_insert_2; [apply ToLower_idemp | done].
Qed.
End fold_lower.

Section insensitivise.
Context {A : Type} (f : A → A).

(** The keys of the copy are the lower-cased keys of the original. *)
Lemma insensitivise_dom (m : gmap string A) :
  dom (insensitivise f m) = set_map ToLower (dom m).
Proof.
  unfold insensitivise. rewrite fold_lower_dom, dom_empty_L.
  by rewrite (left_id_L ∅ (∪)).
Qed.

(** A key that stays alone after lower-casing keeps its value. *)
Lemma insensitivise_lookup (m : gmap string A) k x :
  m !! k = Some x →
  (∀ k', k' ∈ dom m → ToLower k' = ToLower k → k' = k) →
  insensitivise f m !! ToLower k = Some (f x).
Proof. apply fold_lower_lookup. Qed.

Lemma insensitivise_lookup_None (m : gmap string A) j :
  (∀ k, k ∈ dom m → ToLower k ≠ j) → insensitivise f m !! j = None.
Proof.
  intros Hother. unfold insensitivise.
  by rewrite (fold_lower_other f ∅ m j Hother).
Qed.

Lemma insensitivise_keys_lower (m : gmap string A) :
  map_Forall (λ k _, ToLower k = k) (insensitivise f m).
Proof. apply fold_lower_keys, map_Forall_empty. Qed.

(** On a map whose keys are lower-case already nothing moves. *)
Lemma insensitivise_lower_keys (m : gmap string A) :
  map_Forall (λ k _, ToLower k = k) m → insensitivise f m = f <$> m.
Proof.
  unfold insensitivise.
  apply (map_fold_weak_ind (λ r m,
    map_Forall (λ k _, ToLower k = k) m → r = f <$> m)).
  - by rewrite fmap_empty.
  - intros i y m' r Hi IH Hall.
    apply map_Forall_insert in Hall as [Hl Hall]; [|done].
    by rewrite fmap_insert, Hl, IH.
Qed.
End insensitivise.

Lemma copyAndInsensitiviseMap_idemp m :
  copyAndInsensitiviseMap (copyAndInsensitiviseMap m) = copyAndInsensitiviseMap m.
Proof.
  unfold copyAndInsensitiviseMap at 1.
  rewrite insensitivise_lower_keys by apply insensitivise_keys_lower.
  by rewrite map_fmap_id.
Qed.

(** ** How the collecting steps act on the world *)

Lemma world_eta w : mkWorld (stdin w) (trace w) (viper w) (disk w) (readonly w) = w.
Proof. by destruct w. Qed.

Lemma collects_ret {A} (a : A) : collects (ret a).
Proof.
  intros w r w' [= <- <-]. exists []. split; [done|]. split; [done|].
  intros. by rewrite app_nil_r.
Qed.

Lemma collects_fail {A} e : collects (@fail A e).
Proof.
  intros w r w' [= <- <-]. exists []. split; [done|]. split; [done|].
  intros. by rewrite app_nil_r.
Qed.

Lemma collects_Prompt_Run label : collects (Prompt_Run label).
Proof.
  intros w r w' [= <- <-].
  exists [EvPrompt label (answer (head (stdin w)))].
  split; [by apply Forall_singleton|]. split; [|done].
  intros Hok. apply Forall_singleton. destruct (answer _); simpl in *; tauto.
Qed.

Lemma collects_Select_Run label items : collects (Select_Run label items).
Proof.
  intros w r w' [= <- <-].
  exists [EvSelect label items (choice items (head (stdin w)))].
  split; [by apply Forall_singleton|]. split; [|done].
  intros Hok. apply Forall_singleton. destruct (choice _ _); simpl in *; tauto.
Qed.

Lemma bind_inv {A B} (m : M A) (k : A → M B) w r w' :
  bind m k w = (r, w') →
  (∃ a w1, m w = (Ok a, w1) ∧ k a w1 = (r, w')) ∨
  (∃ e, m w = (Err e, w') ∧ r = Err e).
Proof.
  unfold bind. destruct (m w) as [[a|e] w1]; intros H.
  - left. eauto.
  - right. injection H as <- <-. eauto.
Qed.

Lemma wrapping_inv {A} prefix (m : M A) w r w' :
  wrapping prefix m w = (r, w') →
  (∃ a, m w = (Ok a, w') ∧ r = Ok a) ∨
  (∃ e, m w = (Err e, w') ∧ r = Err (fmt_Errorf prefix e)).
Proof.
  unfold wrapping. destruct (m w) as [[a|e] w1]; intros [= <- <-]; eauto.
Qed.

Lemma collects_bind {A B} (m : M A) (k : A → M B) :
  collects m → (∀ a, collects (k a)) → collects (bind m k).
Proof.
  intros Hm Hk w r w' [(a & w1 & H1 & H2)|(e & H1 & ->)]%bind_inv.
  - destruct (Hm _ _ _ H1) as (evs1 & Hp1 & Hf1 & Hany1).
    destruct (Hk _ _ _ _ H2) as (evs2 & Hp2 & Hf2 & Hany2).
    assert (trace w1 = trace w ++ evs1) as Ht1.
    { specialize (Hany1 (viper w) (disk w) (readonly w)).
      rewrite world_eta, H1 in Hany1. injection Hany1 as Hany1.
      by rewrite Hany1 at 1. }
    exists (evs1 ++ evs2). split; [by apply Forall_app|]. split.
    + intros Hok. apply Forall_app. split; [by apply Hf1 | by apply Hf2].
    + intros v d ro. unfold bind. rewrite Hany1, <-Ht1, Hany2, Ht1.
      by rewrite app_assoc.
  - destruct (Hm _ _ _ H1) as (evs1 & Hp1 & Hf1 & Hany1).
    exists evs1. split; [done|]. split; [by intros []|].
    intros v d ro. unfold bind. by rewrite Hany1.
Qed.

Lemma collects_wrapping {A} prefix (m : M A) :
  collects m → collects (wrapping prefix m).
Proof.
  intros Hm w r w' [(a & H1 & ->)|(e & H1 & ->)]%wrapping_inv;
    destruct (Hm _ _ _ H1) as (evs1 & Hp1 & Hf1 & Hany1);
    exists evs1; (split; [done|]); split.
  - exact Hf1.
  - intros v d ro. unfold wrapping. by rewrite Hany1.
  - by intros [].
  - intros v d ro. unfold wrapping. by rewrite Hany1.
Qed.

Lemma collects_readFields fields config : collects (Dynamic.readFields fields config).
Proof.
  revert config. induction fields as [|field rest IH]; intros config; simpl.
  - apply collects_ret.
  - apply collects_bind; [|by intros].
    apply collects_wrapping, collects_Prompt_Run.
Qed.

Lemma collects_readIntegrationFields reg method isSource :
  collects (Dynamic.readIntegrationFields reg method isSource).
Proof.
  unfold Dynamic.readIntegrationFields.
  destruct (if isSource then _ else _) as [v|]; [|apply collects_fail].
  case_decide; [apply collects_fail | apply collects_readFields].
Qed.

Lemma readRules_loop_unfold ruleType label rules w :
  Dynamic.readRules_loop ruleType label rules w =
  match Prompt_Run label w with
  | (Err e, w') => (Err (fmt_Errorf ("failed to read " +:+ ruleType +:+ ": ") e), w')
  | (Ok line, w') =>
      if decide (line = EmptyString) then (Ok rules, w')
      else Dynamic.readRules_loop ruleType label (rules +:+ line +:+ LF) w'
  end.
Proof.
  funelim (Dynamic.readRules_loop ruleType label rules w);
    unfold Prompt_Run; simpl;
    match goal with H : answer _ = _ |- _ => rewrite H end; simpl;
    [done | by rewrite decide_True | by rewrite decide_False].
Qed.

Lemma collects_readRules_loop ruleType label rules :
  collects (Dynamic.readRules_loop ruleType label rules).
Proof.
  intros w. remember (length (stdin w)) as n eqn:Hn.
  revert rules w Hn. induction n as [n IH] using lt_wf_ind.
  intros rules w Hn r w'. rewrite readRules_loop_unfold.
  destruct (Prompt_Run label w) as [[line|e] w1] eqn:Hrun.
  - destruct (collects_Prompt_Run label _ _ _ Hrun) as (evs1 & Hp1 & Hf1 & Hany1).
    assert (trace w1 = trace w ++ evs1 ∧ length (stdin w1) < length (stdin w))
      as [Ht1 Hlt].
    { specialize (Hany1 (viper w) (disk w) (readonly w)).
      rewrite world_eta, Hrun in Hany1. injection Hany1 as Hany1.
      split; [by rewrite Hany1 at 1|].
      injection Hrun as Ha <-. simpl.
      destruct (stdin w); simpl in *; [discriminate | lia]. }
    case_decide.
    + intros [= <- <-]. exists evs1. split; [done|]. split; [by intros; apply Hf1|].
      intros v d ro. rewrite readRules_loop_unfold, Hany1. by rewrite decide_True.
    + intros Hloop. subst n.
      destruct (IH _ Hlt _ _ eq_refl _ _ Hloop) as (evs2 & Hp2 & Hf2 & Hany2).
      exists (evs1 ++ evs2). split; [by apply Forall_app|]. split.
      * intros Hok. apply Forall_app. split; [by apply Hf1 | by apply Hf2].
      * intros v d ro. rewrite readRules_loop_unfold, Hany1.
        rewrite decide_False by done. rewrite <-Ht1, Hany2, Ht1.
        by rewrite app_assoc.
  - intros [= <- <-].
    destruct (collects_Prompt_Run label _ _ _ Hrun) as (evs1 & Hp1 & Hf1 & Hany1).
    exists evs1. split; [done|]. split; [by intros []|].
    intros v d ro. by rewrite readRules_loop_unfold, Hany1.
Qed.

Lemma collects_readRules ruleType : collects (Dynamic.readRules ruleType).
Proof. apply collects_readRules_loop. Qed.

Lemma collects_readErrorHandlingConfig : collects Dynamic.readErrorHandlingConfig.
Proof.
  apply collects_bind; [|intros; apply collects_ret].
  apply collects_wrapping, collects_Prompt_Run.
Qed.

(** ** The rule collector *)

Lemma append_nil_r (a : string) : a +:+ EmptyString = a.
Proof.
  induction a as [|x a IH]; [done|].
  change (String x (a +:+ EmptyString) = String x a). by rewrite IH.
Qed.

Lemma readRules_loop_lines ruleType label lines : ∀ rules w rest,
  Forall (λ line, line ≠ EmptyString) lines →
  stdin w = (Entered <$> lines) ++ Entered EmptyString :: rest →
  Dynamic.readRules_loop ruleType label rules w =
    (Ok (rules +:+ join_lines lines),
     {| stdin := rest;
        trace := trace w ++ ((λ line, EvPrompt label (Ok line)) <$> lines)
                         ++ [EvPrompt label (Ok EmptyString)];
        viper := viper w; disk := disk w; readonly := readonly w |}).
Proof.
  induction lines as [|line lines IH]; intros rules w rest Hne Hin;
    rewrite readRules_loop_unfold; unfold Prompt_Run, emit, pop_stdin;
    rewrite Hin; simpl.
  - by rewrite append_nil_r.
  - apply Forall_cons in Hne as [Hline Hne].
    rewrite decide_False by done.
    rewrite (IH _ _ rest Hne) by done. simpl.
    by rewrite !append_assoc, <-!app_assoc.
Qed.

(** C3. Rule collection returns every line entered before the first empty
    line, each followed by a newline, in order; it stops at that empty line
    and leaves the replies after it unread.  It shows one prompt per line
    read and does not touch the settings store. *)
Theorem readRules_until_empty_line ruleType (lines : list string) rest w :
  Forall (λ line, line ≠ EmptyString) lines →
  stdin w = (Entered <$> lines) ++ Entered EmptyString :: rest →
  ∃ w', Dynamic.readRules ruleType w = (Ok (join_lines lines), w') ∧
        stdin w' = rest ∧
        length (trace w') = length (trace w) + S (length lines) ∧
        same_store w w'.
Proof.
  intros Hne Hin. unfold Dynamic.readRules.
  rewrite (readRules_loop_lines _ _ lines EmptyString w rest Hne Hin).
  eexists. split; [done|]. simpl. split; [done|]. split; [|done].
  rewrite !length_app, length_fmap. simpl. lia.
Qed.

(** The two examples of the specification: lines a>0, b<10 and the empty line
    give the two rules, each with its newline; an empty line at once gives
    the empty text. *)
Lemma readRules_until_empty_line_witness :
  Forall (λ line, line ≠ EmptyString) ["a>0"; "b<10"] ∧
  (∃ w', Dynamic.readRules "validations"
           (fresh_world [Entered "a>0"; Entered "b<10"; Entered EmptyString])
         = (Ok ("a>0" +:+ LF +:+ "b<10" +:+ LF), w') ∧
         stdin w' = [] ∧ length (trace w') = 3 ∧
         same_store (fresh_world [Entered "a>0"; Entered "b<10"; Entered EmptyString]) w') ∧
  (∃ w', Dynamic.readRules "validations" (fresh_world [Entered EmptyString]) = (Ok EmptyString, w') ∧
         stdin w' = [] ∧ length (trace w') = 1 ∧
         same_store (fresh_world [Entered EmptyString]) w').
Proof.
  assert (Forall (λ line : string, line ≠ EmptyString) ["a>0"; "b<10"]) as Hne.
  { repeat constructor; discriminate. }
  split; [exact Hne|]. split.
  - exact (readRules_until_empty_line "validations" ["a>0"; "b<10"] []
             (fresh_world [Entered "a>0"; Entered "b<10"; Entered EmptyString])
             Hne eq_refl).
  - exact (readRules_until_empty_line "validations" [] []
             (fresh_world [Entered EmptyString]) (Forall_nil_2 _) eq_refl).
Defined.

(** ** Field introspection and collection *)

Lemma readFields_answered fields : ∀ (texts : list string) config0 w rest,
  length texts = length fields →
  stdin w = (Entered <$> texts) ++ rest →
  ∃ config,
    Dynamic.readFields fields config0 w =
      (Ok config,
       {| stdin := rest; trace := trace w ++ zip_with field_prompt fields texts;
          viper := viper w; disk := disk w; readonly := readonly w |}) ∧
    dom config = dom config0 ∪ list_to_set (Name <$> fields) ∧
    (∀ key, key ∉ Name <$> fields → config !! key = config0 !! key) ∧
    (∀ i field text, fields !! i = Some field → texts !! i = Some text →
       Name field ∉ Name <$> drop (S i) fields → config !! Name field = Some text).
Proof.
  induction fields as [|field fields IH]; intros texts config0 w rest Hlen Hin.
  - destruct texts; [|done]. simpl in Hin. exists config0. simpl. split.
    + unfold ret. rewrite app_nil_r, <-Hin. by destruct w.
    + split; [by rewrite (right_id_L ∅ (∪))|]. split; [done|].
      intros i ?? Hi. by destruct i.
  - destruct texts as [|text texts]; [done|]. injection Hlen as Hlen.
    simpl in Hin.
    destruct (IH texts (<[Name field := text]> config0)
                (emit (field_prompt field text) (pop_stdin w)) rest Hlen)
      as (config & Hrun & Hdom & Hold & Hnew).
    { simpl. by rewrite Hin. }
    exists config. split; [|split; [|split]].
    + simpl. unfold bind, wrapping, Prompt_Run. rewrite Hin. simpl.
      unfold field_prompt in Hrun. rewrite Hrun. simpl.
      by rewrite <-app_assoc.
    + rewrite Hdom, dom_insert_L, fmap_cons, list_to_set_cons.
      rewrite (comm_L (∪) {[Name field]} (dom config0)).
      by rewrite (assoc_L (∪)).
    + intros key Hkey. rewrite fmap_cons, not_elem_of_cons in Hkey.
      destruct Hkey as [Hne Hkey]. rewrite Hold by done.
      by rewrite lookup_insert_ne.
    + intros [|i] f t Hf Ht Hlast; simpl in *.
      * injection Hf as <-. injection Ht as <-.
        rewrite drop_0 in Hlast. rewrite Hold by done.
        by rewrite lookup_insert_eq.
      * by eapply Hnew.
Qed.

(** C2. For an instance that is a struct (or a pointer to one) with fields
    F1..Fn, answered with n texts, [readIntegrationFields] shows exactly the n
    field prompts in declaration order, consumes exactly the n answers, and
    returns a map whose keys are exactly the field names; each name is bound
    to the text entered at its prompt, as text, the empty text included. *)
Theorem readIntegrationFields_struct reg method (isSource : bool) (v : Value)
    (fields : list StructField) (texts : list string) rest w :
  (if isSource then GetSource reg method else GetDestination reg method) = Some v →
  v = StructOf fields ∨ v = PtrTo (StructOf fields) →
  length texts = length fields →
  stdin w = (Entered <$> texts) ++ rest →
  ∃ config w',
    Dynamic.readIntegrationFields reg method isSource w = (Ok config, w') ∧
    trace w' = trace w ++ zip_with field_prompt fields texts ∧
    stdin w' = rest ∧
    dom config = list_to_set (Name <$> fields) ∧
    (∀ i field text, fields !! i = Some field → texts !! i = Some text →
       Name field ∉ Name <$> drop (S i) fields → config !! Name field = Some text).
Proof.
  intros Hreg Hv Hlen Hin. unfold Dynamic.readIntegrationFields. rewrite Hreg.
  destruct (readFields_answered fields texts ∅ w rest Hlen Hin)
    as (config & Hrun & Hdom & _ & Hnew).
  exists config. eexists. split.
  - destruct Hv as [-> | ->]; simpl; exact Hrun.
  - simpl. split; [done|]. split; [done|]. split; [|exact Hnew].
    by rewrite Hdom, dom_empty_L, (left_id_L ∅ (∪)).
Qed.

(** The destination of the worked session: fields DSN and Table, answered in
    that order; the second answer is empty. *)
Lemma readIntegrationFields_struct_witness :
  ∃ config w',
    Dynamic.readIntegrationFields demo_registry "SQL" false
      (fresh_world [Entered "postgres://x"; Entered EmptyString; Entered "left over"])
      = (Ok config, w') ∧
    trace w' = [EvPrompt "Enter DSN (string)" (Ok "postgres://x");
                EvPrompt "Enter Table (string)" (Ok EmptyString)] ∧
    stdin w' = [Entered "left over"] ∧
    dom config = {[ "DSN"; "Table" ]} ∧
    config !! "DSN" = Some "postgres://x" ∧ config !! "Table" = Some EmptyString.
Proof.
  destruct (readIntegrationFields_struct demo_registry "SQL" false
              (PtrTo (StructOf [ {| Name := "DSN"; FieldType := string_type |};
                                 {| Name := "Table"; FieldType := string_type |} ]))
              [ {| Name := "DSN"; FieldType := string_type |};
                {| Name := "Table"; FieldType := string_type |} ]
              ["postgres://x"; EmptyString] [Entered "left over"]
              (fresh_world [Entered "postgres://x"; Entered EmptyString; Entered "left over"])
              eq_refl (or_intror eq_refl) eq_refl eq_refl)
    as (config & w' & Hrun & Htrace & Hin & Hdom & Hget).
  exists config, w'. split; [exact Hrun|]. split; [exact Htrace|].
  split; [exact Hin|]. split.
  - rewrite Hdom. simpl. by rewrite (right_id_L ∅ (∪)).
  - split.
    + apply (Hget 0 {| Name := "DSN"; FieldType := string_type |}); [done..|].
      simpl. intros Hdup. apply list_elem_of_singleton in Hdup. discriminate Hdup.
    + apply (Hget 1 {| Name := "Table"; FieldType := string_type |}); [done..|].
      simpl. apply not_elem_of_nil.
Defined.

Lemma readFields_error fields : ∀ config w e w',
  Dynamic.readFields fields config w = (Err e, w') → ∃ prefix cause, e = fmt_Errorf prefix cause.
Proof.
  induction fields as [|field fields IH]; intros config w e w'; simpl.
  - by intros [=].
  - intros [(a & w1 & H1 & H2)|(e' & H1 & [= ->])]%bind_inv; [by eapply IH|].
    apply wrapping_inv in H1 as [(a & _ & [=])|(e & _ & [= ->])]. eauto.
Qed.

(** C4 (as amended). Field introspection fails with "integration is not a
    struct", showing no prompt, when the instance found in the registry, after
    one pointer indirection, is not a struct; when it is a struct it never
    fails that way, whatever the types of its fields. *)
Theorem readIntegrationFields_rejects_non_struct reg method (isSource : bool)
    (v : Value) w :
  (if isSource then GetSource reg method else GetDestination reg method) = Some v →
  (Value_Kind (indirect v) ≠ Struct →
     Dynamic.readIntegrationFields reg method isSource w =
       (Err (errors_New "integration is not a struct"), w)) ∧
  (Value_Kind (indirect v) = Struct →
     ∀ r w', Dynamic.readIntegrationFields reg method isSource w = (r, w') →
             r ≠ Err (errors_New "integration is not a struct")).
Proof.
  intros Hreg. unfold Dynamic.readIntegrationFields, indirect. rewrite Hreg.
  split; intros Hkind.
  - by rewrite decide_True.
  - rewrite decide_False by (by intros []).
    intros r w' Hrun ->. by apply readFields_error in Hrun as (? & ? & ?).
Qed.

(** A registry that hands out a constructor function instead of an
    instance. *)
Lemma readIntegrationFields_rejects_non_struct_witness :
  Dynamic.readIntegrationFields factory_registry "Clock" true
    (fresh_world [Entered "x"])
  = (Err (errors_New "integration is not a struct"), fresh_world [Entered "x"]).
Proof.
  apply (readIntegrationFields_rejects_non_struct factory_registry "Clock" true
           (Plain Func eq_refl) (fresh_world [Entered "x"]) eq_refl).
  simpl. discriminate.
Defined.

(** C4 as stated fails: the Kafka source has a slice field, so it is not a
    flat record, yet it is accepted and prompted for field by field. *)
Lemma readIntegrationFields_accepts_slice_field :
  GetSource kafka_registry "Kafka" =
    Some (PtrTo (StructOf
      [ {| Name := "Brokers";
           FieldType := {| Type_String := "[]string"; Type_Kind := Slice |} |};
        {| Name := "Topic"; FieldType := string_type |} ])) ∧
  (∀ v, GetSource kafka_registry "Kafka" = Some v → flat_record v = false) ∧
  ∃ w', Dynamic.readIntegrationFields kafka_registry "Kafka" true
          (fresh_world [Entered "b1:9092"; Entered "events"])
        = (Ok {[ "Brokers" := "b1:9092"; "Topic" := "events" ]}, w') ∧
        trace w' = [EvPrompt "Enter Brokers ([]string)" (Ok "b1:9092");
                    EvPrompt "Enter Topic (string)" (Ok "events")].
Proof.
  split; [done|]. split; [by intros v [= <-]|].
  exists (mkWorld [] [EvPrompt "Enter Brokers ([]string)" (Ok "b1:9092");
                      EvPrompt "Enter Topic (string)" (Ok "events")]
            viper_New ∅ ∅).
  split; [compute_done | done].
Qed.

(** C5. A name the registry does not know makes [readIntegrationFields] fail
    with "integration not found in registry" at once: the world is untouched,
    so no prompt was shown and no reply consumed. *)
Theorem readIntegrationFields_unknown_name reg method (isSource : bool) w :
  (if isSource then GetSource reg method else GetDestination reg method) = None →
  Dynamic.readIntegrationFields reg method isSource w =
    (Err (errors_New "integration not found in registry"), w).
Proof. intros Hreg. unfold Dynamic.readIntegrationFields. by rewrite Hreg. Qed.

(** Seen from [SetupConfigInteractively]: a selected source that the lookup
    does not find ends the run right after the selection. *)
Lemma SetupConfigInteractively_unknown_source reg w name rest :
  stdin w = Entered name :: rest →
  name ∈ GetSources reg →
  GetSource reg name = None →
  Dynamic.SetupConfigInteractively reg w =
    (Err (fmt_Errorf "failed to get fields for input method: "
            (errors_New "integration not found in registry")),
     emit (EvSelect "Select Input Method" (Dynamic.getRegisteredDataSources reg)
             (Ok name)) (pop_stdin w)).
Proof.
  intros Hin Hname Hreg.
  unfold Dynamic.SetupConfigInteractively, bind, wrapping, Select_Run.
  rewrite Hin. simpl. rewrite decide_True.
  - unfold Dynamic.readIntegrationFields. by rewrite Hreg.
  - unfold Dynamic.getRegisteredDataSources. by apply elem_of_elements.
Qed.

Lemma readIntegrationFields_unknown_name_witness :
  Dynamic.readIntegrationFields demo_registry "Kafka" true (fresh_world [Entered "x"])
  = (Err (errors_New "integration not found in registry"), fresh_world [Entered "x"]).
Proof.
  exact (readIntegrationFields_unknown_name demo_registry "Kafka" true
           (fresh_world [Entered "x"]) eq_refl).
Defined.

(** ** The assembly as a whole *)

Lemma saves_after_collecting_bind {A} Q (m : M A) k :
  collects m → (∀ a, saves_after_collecting Q (k a)) →
  saves_after_collecting Q (bind m k).
Proof.
  intros Hm Hk w r w' [(a & w1 & H1 & H2)|(e & H1 & ->)]%bind_inv.
  - destruct (Hm _ _ _ H1) as (evs1 & Hp1 & Hf1 & Hany1).
    destruct (Hk _ _ _ _ H2) as (rest & evs2 & Hp2 & Hq2 & Hany2).
    assert (trace w1 = trace w ++ evs1) as Ht1.
    { specialize (Hany1 (viper w) (disk w) (readonly w)).
      rewrite world_eta, H1 in Hany1. injection Hany1 as Hany1.
      by rewrite Hany1 at 1. }
    exists rest, (evs1 ++ evs2). split; [by apply Forall_app|]. split.
    + intros doc ->. destruct (Hq2 _ eq_refl) as [HQ Hf2]. split; [done|].
      apply Forall_app. split; [by apply Hf1 | done].
    + intros v d ro. unfold bind. rewrite Hany1, <-Ht1, Hany2, Ht1.
      by rewrite app_assoc.
  - destruct (Hm _ _ _ H1) as (evs1 & Hp1 & Hf1 & Hany1).
    exists (stdin w'), evs1. split; [done|]. split; [done|].
    intros v d ro. unfold bind. by rewrite Hany1.
Qed.

Lemma saves_after_collecting_save (Q : gmap string value → Prop) doc :
  Q doc → saves_after_collecting Q (exec (Dynamic.saveConfig doc) (ret doc)).
Proof.
  intros HQ w r w' [= <- <-]. exists (stdin w), [].
  split; [done|]. split; [by intros ? [= <-]|].
  intros v d ro. by rewrite app_nil_r.
Qed.

Lemma SetupConfigInteractively_phases reg :
  saves_after_collecting assembled (Dynamic.SetupConfigInteractively reg).
Proof.
  unfold Dynamic.SetupConfigInteractively.
  apply saves_after_collecting_bind;
    [apply collects_wrapping, collects_Select_Run | intros inputMethod].
  apply saves_after_collecting_bind;
    [apply collects_wrapping, collects_readIntegrationFields | intros inputconfig].
  apply saves_after_collecting_bind;
    [apply collects_wrapping, collects_Select_Run | intros outputMethod].
  apply saves_after_collecting_bind;
    [apply collects_wrapping, collects_readIntegrationFields | intros outputconfig].
  apply saves_after_collecting_bind;
    [apply collects_wrapping, collects_readRules | intros validations].
  apply saves_after_collecting_bind;
    [apply collects_wrapping, collects_readRules | intros transformations].
  apply saves_after_collecting_bind;
    [apply collects_wrapping, collects_readErrorHandlingConfig | intros errorhandling].
  apply saves_after_collecting_save.
  by exists inputMethod, inputconfig, outputMethod, outputconfig, validations,
            transformations, errorhandling.
Qed.

(** ** The settings store *)


(** What the loop of [saveConfig] does to the store: every key of the
    document lands, lower-cased, in the [override] register; nothing else
    changes. *)
Lemma setAll_world doc w :
  Dynamic.setAll doc w =
    mkWorld (stdin w) (trace w)
      (mkViper (configFile (viper w))
         (map_fold (λ key val nm, <[ToLower key := toCaseInsensitiveValue val]> nm)
                   (override (viper w)) doc)
         (config (viper w)))
      (disk w) (readonly w).
Proof.
  unfold Dynamic.setAll.
  induction doc as [|k x doc Hk Hfirst IH] using map_first_key_ind.
  - rewrite !map_fold_empty. by destruct w as [? ? [] ? ?].
  - rewrite !map_fold_insert_first_key by done. rewrite IH. done.
Qed.

Lemma lookup_AllSettings v k :
  viper_AllSettings v !! k = merge_setting (override v !! k) (config v !! k).
Proof.
  unfold viper_AllSettings. rewrite lookup_merge.
  by destruct (override v !! k), (config v !! k).
Qed.

(** The two outcomes of [saveConfig]. *)
Lemma saveConfig_world doc w :
  Dynamic.saveConfig doc w =
    let w1 := Dynamic.setAll doc w in
    if decide ("config.yaml" ∈ readonly w)
    then emit (EvPrintln ("Failed to save configuration: " +:+
                          "open config.yaml: permission denied")) w1
    else emit (EvPrintln "Configuration saved to config.yaml")
           (set_disk (<["config.yaml" := Parsed (viper_AllSettings (viper w1))]>
                        (disk w)) w1).
Proof.
  unfold Dynamic.saveConfig, viper_WriteConfigAs. rewrite !setAll_world. simpl.
  by case_decide.
Qed.

(** ** Cancellation and persistence failures *)

(** C6. All or nothing: if any prompt shown by [SetupConfigInteractively]
    fails, the call returns an error (and so no document); and whenever it
    returns an error, the settings store and the file system are untouched
    and nothing but prompts was shown, that is, [saveConfig] was not
    reached. *)
Theorem SetupConfigInteractively_all_or_nothing reg w r w' evs :
  Dynamic.SetupConfigInteractively reg w = (r, w') →
  trace w' = trace w ++ evs →
  (Exists prompt_failed evs → ∃ e, r = Err e) ∧
  (∀ e, r = Err e → same_store w w' ∧ Forall (λ ev, is_prompt ev = true) evs).
Proof.
  intros Hrun Htrace.
  destruct (SetupConfigInteractively_phases reg w r w' Hrun)
    as (rest & evs0 & Hp & Hq & Hany).
  specialize (Hany (viper w) (disk w) (readonly w)).
  rewrite world_eta, Hrun in Hany. destruct r as [doc|e].
  - injection Hany as ->. destruct (Hq doc eq_refl) as [_ Hf].
    rewrite saveConfig_world, setAll_world in Htrace. split; [|done].
    intros Hfailed. exfalso.
    assert (∃ line, evs = evs0 ++ [EvPrintln line]) as [line ->].
    { case_decide; simpl in Htrace; rewrite <-app_assoc in Htrace;
        apply app_inv_head in Htrace; eauto. }
    apply Exists_app in Hfailed as [Hfailed|Hfailed].
    + apply Exists_exists in Hfailed as (ev & Hev & Hbad).
      rewrite Forall_forall in Hf. by apply (Hf ev).
    + apply Exists_cons in Hfailed as [[]|Hnil]. by apply Exists_nil in Hnil.
  - injection Hany as ->. simpl in Htrace. apply app_inv_head in Htrace as <-.
    split; [eauto|]. intros _ _. split; [by repeat split | done].
Qed.

(** The user interrupts at the first destination field: an error comes back
    and nothing was stored or written. *)
Lemma SetupConfigInteractively_all_or_nothing_witness :
  ∃ e, (Dynamic.SetupConfigInteractively demo_registry
          (fresh_world interrupted_script)).1 = Err e ∧
       same_store (fresh_world interrupted_script)
         (Dynamic.SetupConfigInteractively demo_registry
            (fresh_world interrupted_script)).2.
Proof.
  destruct (SetupConfigInteractively_all_or_nothing demo_registry
              (fresh_world interrupted_script)
              (Dynamic.SetupConfigInteractively demo_registry
                 (fresh_world interrupted_script)).1
              (Dynamic.SetupConfigInteractively demo_registry
                 (fresh_world interrupted_script)).2
              (trace (Dynamic.SetupConfigInteractively demo_registry
                        (fresh_world interrupted_script)).2)
              (surjective_pairing _) eq_refl) as [Hfail Hnothing].
  destruct Hfail as [e He].
  { vm_compute. do 3 apply Exists_cons_tl. apply Exists_cons_hd. exact I. }
  exists e. split; [exact He|]. exact (proj1 (Hnothing e He)).
Defined.

(** C7. A failed write is not fatal.  When config.yaml cannot be written,
    [SetupConfigInteractively] returns exactly what it returns when the file
    can be written (whatever may be written elsewhere); and when that is a
    document, the file system is as before and the last thing shown, after
    prompts that all succeeded, is the line reporting the failure. *)
Theorem SetupConfigInteractively_survives_failed_write reg w ro :
  "config.yaml" ∈ readonly w →
  (Dynamic.SetupConfigInteractively reg w).1 =
    (Dynamic.SetupConfigInteractively reg (with_readonly ro w)).1 ∧
  ∀ doc, (Dynamic.SetupConfigInteractively reg w).1 = Ok doc →
    assembled doc ∧
    disk (Dynamic.SetupConfigInteractively reg w).2 = disk w ∧
    ∃ evs, trace (Dynamic.SetupConfigInteractively reg w).2 =
             trace w ++ evs ++
               [EvPrintln ("Failed to save configuration: " +:+
                           "open config.yaml: permission denied")] ∧
           Forall (λ ev, is_prompt ev = true) evs ∧
           Forall (λ ev, ¬ prompt_failed ev) evs.
Proof.
  intros Hro. destruct (Dynamic.SetupConfigInteractively reg w) as [r w'] eqn:Hrun.
  destruct (SetupConfigInteractively_phases reg w r w' Hrun)
    as (rest & evs0 & Hp & Hq & Hany).
  split.
  - unfold with_readonly. rewrite Hany. by destruct r.
  - simpl. intros doc ->. destruct (Hq doc eq_refl) as [Hdoc Hf].
    specialize (Hany (viper w) (disk w) (readonly w)).
    rewrite world_eta, Hrun in Hany. injection Hany as ->.
    rewrite saveConfig_world, setAll_world. simpl.
    rewrite decide_True by done. simpl. split; [done|]. split; [done|].
    exists evs0. by rewrite <-app_assoc.
Qed.

(** The worked session on a read-only directory: the same document comes
    back as on a writable one, and no file appears. *)
Lemma SetupConfigInteractively_survives_failed_write_witness :
  "config.yaml" ∈ readonly locked_world ∧
  (Dynamic.SetupConfigInteractively demo_registry locked_world).1 =
    Ok (assemble "CSV" {[ "Path" := "/in.csv" ]}
          "SQL" (<["DSN" := "postgres://x"]> {[ "Table" := "out" ]})
          ("not_null(id)" +:+ LF) EmptyString {[ "strategy" := "STOP_ON_ERROR" ]}) ∧
  (Dynamic.SetupConfigInteractively demo_registry locked_world).1 =
    (Dynamic.SetupConfigInteractively demo_registry (fresh_world demo_script)).1 ∧
  disk (Dynamic.SetupConfigInteractively demo_registry locked_world).2 = ∅.
Proof.
  assert ("config.yaml" ∈ readonly locked_world) as Hro.
  { simpl. apply elem_of_singleton_2. reflexivity. }
  assert ((Dynamic.SetupConfigInteractively demo_registry locked_world).1 =
          Ok (assemble "CSV" {[ "Path" := "/in.csv" ]}
                "SQL" (<["DSN" := "postgres://x"]> {[ "Table" := "out" ]})
                ("not_null(id)" +:+ LF) EmptyString {[ "strategy" := "STOP_ON_ERROR" ]}))
    as Hdoc.
  { compute_done. }
  destruct (SetupConfigInteractively_survives_failed_write demo_registry
              locked_world ∅ Hro) as [Hsame Hkept].
  split; [exact Hro|]. split; [exact Hdoc|]. split; [exact Hsame|].
  exact (proj1 (proj2 (Hkept _ Hdoc))).
Defined.

(** ** Keys of the document *)

Lemma dom_assemble iM ic oM oc va tr eh :
  dom (assemble iM ic oM oc va tr eh) = document_keys.
Proof.
  unfold assemble, document_keys. rewrite !dom_insert_L, dom_empty_L.
  rewrite (right_id_L ∅ (∪)). by rewrite !(assoc_L (∪)).
Qed.

Lemma LoadConfig_inv path w doc w' :
  Dynamic.LoadConfig path w = (Ok doc, w') →
  ∃ settings,
    disk w !! path = Some (Parsed settings) ∧
    viper w' = mkViper path (override (viper w))
                 (insensitivise toCaseInsensitiveValue settings) ∧
    doc = assemble (viper_GetString "inputMethod" (viper w'))
                   (viper_GetStringMap "inputconfig" (viper w'))
                   (viper_GetString "outputMethod" (viper w'))
                   (viper_GetStringMap "outputconfig" (viper w'))
                   (viper_GetString "validations" (viper w'))
                   (viper_GetString "transformations" (viper w'))
                   (viper_GetStringMap "errorhandling" (viper w')).
Proof.
  unfold Dynamic.LoadConfig, exec, bind, viper_ReadInConfig, viper_SetConfigFile.
  simpl. destruct (disk w !! path) as [[settings|]|] eqn:Hfile; [|done..].
  simpl. intros [= <- <-]. exists settings. split; [done|]. split; [done|].
  simpl. unfold assemble. apply map_eq. intros k.
  rewrite !lookup_insert, !lookup_empty. repeat case_decide; try done; congruence.
Qed.

(** C8 (as amended). The documents that [SetupConfigInteractively] hands to
    the store and that [LoadConfig] returns have exactly the keys
    inputMethod, outputMethod, inputconfig, outputconfig, validations,
    transformations and errorhandling; the store holds them lower-cased. *)
Theorem document_keys_as_written reg path w doc w' :
  (Dynamic.SetupConfigInteractively reg w = (Ok doc, w') →
     dom doc = document_keys ∧
     dom (override (viper w')) =
       dom (override (viper w)) ∪ set_map ToLower document_keys) ∧
  (Dynamic.LoadConfig path w = (Ok doc, w') → dom doc = document_keys).
Proof.
  split.
  - intros Hrun.
    destruct (SetupConfigInteractively_phases reg w _ w' Hrun)
      as (rest & evs0 & Hp & Hq & Hany).
    destruct (Hq doc eq_refl) as [(iM & ic & oM & oc & va & tr & eh & Hdoc) _].
    specialize (Hany (viper w) (disk w) (readonly w)).
    rewrite world_eta, Hrun in Hany. injection Hany as ->.
    split; [subst doc; apply dom_assemble|].
    rewrite saveConfig_world, setAll_world.
    assert (dom doc = document_keys) as <- by (subst doc; apply dom_assemble).
    case_decide; simpl; apply fold_lower_dom.
  - intros (settings & _ & _ & ->)%LoadConfig_inv. apply dom_assemble.
Qed.

(** The end-to-end scenario of section 8: the document that comes back. *)
Lemma demo_session :
  (Dynamic.SetupConfigInteractively demo_registry (fresh_world demo_script)).1
    = Ok demo_document.
Proof. compute_done. Qed.

(** The same document loaded from the file just written, in the same
    process: the field names come back in lower case. *)
Lemma demo_reload :
  (Dynamic.LoadConfig "config.yaml"
     (Dynamic.SetupConfigInteractively demo_registry (fresh_world demo_script)).2).1
    = Ok demo_reloaded.
Proof. compute_done. Qed.

Lemma document_keys_as_written_witness :
  dom demo_document = document_keys ∧ dom demo_reloaded = document_keys.
Proof.
  split.
  - refine (proj1 (proj1 (document_keys_as_written demo_registry "config.yaml"
                            (fresh_world demo_script) demo_document
                            (Dynamic.SetupConfigInteractively demo_registry
                               (fresh_world demo_script)).2) _)).
    rewrite <-demo_session. apply surjective_pairing.
  - refine (proj2 (document_keys_as_written demo_registry "config.yaml"
                     (Dynamic.SetupConfigInteractively demo_registry
                               (fresh_world demo_script)).2 demo_reloaded
                     (Dynamic.LoadConfig "config.yaml"
                        (Dynamic.SetupConfigInteractively demo_registry
                           (fresh_world demo_script)).2).2) _).
    rewrite <-demo_reload. apply surjective_pairing.
Defined.

(** C8 as stated fails: neither the document of the worked session nor the
    one loaded back has the keys of section 3; inputConfig, outputConfig and
    errorHandling are missing from both. *)
Lemma document_keys_differ_from_spec :
  (Dynamic.SetupConfigInteractively demo_registry (fresh_world demo_script)).1
    = Ok demo_document ∧
  (Dynamic.LoadConfig "config.yaml"
     (Dynamic.SetupConfigInteractively demo_registry (fresh_world demo_script)).2).1
    = Ok demo_reloaded ∧
  dom demo_document ≠ spec_keys ∧ dom demo_reloaded ≠ spec_keys ∧
  demo_document !! "inputConfig" = None ∧
  demo_document !! "outputConfig" = None ∧
  demo_document !! "errorHandling" = None ∧
  demo_reloaded !! "inputConfig" = None.
Proof.
  split; [exact demo_session|]. split; [exact demo_reload|].
  repeat split; compute_done.
Qed.

(** ** What a save writes *)

(** A scalar that sits in the [override] register under a key the document
    does not address is written to the file along with the document. *)
Lemma saveConfig_keeps_other_keys doc w key s :
  "config.yaml" ∉ readonly w →
  override (viper w) !! key = Some (VString s) →
  (∀ k, k ∈ dom doc → ToLower k ≠ key) →
  ∃ settings,
    disk (Dynamic.saveConfig doc w) !! "config.yaml" = Some (Parsed settings) ∧
    settings !! key = Some (VString s).
Proof.
  intros Hrw Hkey Hother. rewrite saveConfig_world, setAll_world.
  rewrite decide_False by done. simpl. eexists. split; [apply lookup_insert_eq|].
  rewrite lookup_AllSettings. simpl.
  by rewrite (fold_lower_other toCaseInsensitiveValue _ _ _ Hother), Hkey.
Qed.

(** A scalar of the document, under a key that stays alone after
    lower-casing, is in the [override] register after the save. *)
Lemma saveConfig_sets_key doc w key s :
  doc !! key = Some (VString s) →
  (∀ k, k ∈ dom doc → ToLower k = ToLower key → k = key) →
  override (viper (Dynamic.saveConfig doc w)) !! ToLower key = Some (VString s).
Proof.
  intros Hkey Huniq. rewrite saveConfig_world, setAll_world.
  case_decide; simpl;
    apply (fold_lower_lookup toCaseInsensitiveValue _ _ _ _ Hkey Huniq).
Qed.

(** C9. The file is not a function of the document alone: [saveConfig] puts
    the document's keys into the process-wide store and writes the whole
    store.  After saving a document with only the key validations and then a
    document with only the key inputMethod, the file written by the second
    save still holds validations with the value of the first. *)
Theorem saveConfig_writes_whole_store :
  ∃ (doc1 doc2 : gmap string value) key val settings,
    doc1 !! key = Some val ∧ doc2 !! key = None ∧
    disk (Dynamic.saveConfig doc2 (Dynamic.saveConfig doc1 (fresh_world [])))
      !! "config.yaml" = Some (Parsed settings) ∧
    settings !! key = Some val.
Proof.
  set (doc1 := {[ "validations" := VString ("a>0" +:+ LF) ]} : gmap string value).
  set (doc2 := {[ "inputMethod" := VString "CSV" ]} : gmap string value).
  destruct (saveConfig_keeps_other_keys doc2
              (Dynamic.saveConfig doc1 (fresh_world []))
              "validations" ("a>0" +:+ LF)) as (settings & Hfile & Hkept).
  - rewrite saveConfig_world, setAll_world. simpl. apply not_elem_of_empty.
  - apply (saveConfig_sets_key doc1 _ "validations"); [apply lookup_singleton_eq|].
    intros k Hk _. unfold doc1 in Hk. rewrite dom_singleton_L in Hk.
    by apply elem_of_singleton in Hk.
  - intros k Hk. unfold doc2 in Hk. rewrite dom_singleton_L in Hk.
    apply elem_of_singleton in Hk as ->. by compute_done.
  - exists doc1, doc2, "validations", (VString ("a>0" +:+ LF)), settings.
    split; [apply lookup_singleton_eq|].
    split; [by apply lookup_singleton_ne|]. split; [exact Hfile | exact Hkept].
Qed.

(** The two-key variant writes the whole store as well: a setting read from a
    file earlier is written back with the two methods. *)
Lemma Simple_saveConfig_writes_whole_store doc w key s :
  "config.yaml" ∉ readonly w →
  viper_find key (viper w) = Some (VString s) →
  ToLower key ≠ "inputmethod" → ToLower key ≠ "outputmethod" →
  ∃ settings,
    disk (Simple.saveConfig doc w) !! "config.yaml" = Some (Parsed settings) ∧
    settings !! ToLower key = Some (VString s).
Proof.
  intros Hrw Hkey Hin Hout. unfold Simple.saveConfig, viper_WriteConfigAs. simpl.
  rewrite decide_False by done. simpl. eexists. split; [apply lookup_insert_eq|].
  rewrite lookup_AllSettings. simpl.
  change (ToLower "inputMethod") with "inputmethod".
  change (ToLower "outputMethod") with "outputmethod".
  rewrite !lookup_insert_ne by done.
  unfold viper_find in Hkey.
  destruct (override (viper w) !! ToLower key) as [x|]; simplify_eq/=; [done|].
  by rewrite Hkey.
Qed.

(** ** Loading in the two-key variant *)



(** ** Saving and loading again *)

Lemma LoadConfig_parsed path w settings :
  disk w !! path = Some (Parsed settings) →
  ∃ w',
    Dynamic.LoadConfig path w =
      (Ok (assemble (viper_GetString "inputMethod" (viper w'))
                    (viper_GetStringMap "inputconfig" (viper w'))
                    (viper_GetString "outputMethod" (viper w'))
                    (viper_GetStringMap "outputconfig" (viper w'))
                    (viper_GetString "validations" (viper w'))
                    (viper_GetString "transformations" (viper w'))
                    (viper_GetStringMap "errorhandling" (viper w'))), w') ∧
    viper w' = mkViper path (override (viper w))
                 (insensitivise toCaseInsensitiveValue settings).
Proof.
  intros Hfile.
  destruct (Dynamic.LoadConfig path w) as [[doc|e] w'] eqn:Hload.
  - apply LoadConfig_inv in Hload as (settings' & Hfile' & Hv & ->).
    rewrite Hfile in Hfile'. injection Hfile' as <-. by exists w'.
  - exfalso. revert Hload.
    unfold Dynamic.LoadConfig, exec, bind, viper_ReadInConfig, viper_SetConfigFile.
    simpl. by rewrite Hfile.
Qed.

Lemma document_keys_distinct k k' :
  k ∈ document_keys → k' ∈ document_keys → ToLower k' = ToLower k → k' = k.
Proof.
  unfold document_keys. rewrite !elem_of_union, !elem_of_singleton.
  intros Hk Hk' Hlow.
  repeat (destruct Hk as [Hk | Hk]); subst k;
    repeat (destruct Hk' as [Hk' | Hk']); subst k';
    first [reflexivity | vm_compute in Hlow; discriminate Hlow].
Qed.

Lemma AllSettings_keys_lower v :
  map_Forall (λ k _, ToLower k = k) (override v) → config v = ∅ →
  map_Forall (λ k _, ToLower k = k) (viper_AllSettings v).
Proof.
  intros Hlow Hcfg k x. rewrite lookup_AllSettings, Hcfg, lookup_empty.
  destruct (override v !! k) as [y|] eqn:Hk; [|done]. intros _. by apply (Hlow k y).
Qed.

(** What comes back for a key that [Set] wrote, when the file written from
    the store is read again: in the same process, or in a new one. *)
Lemma find_after_reload v1 v3 key x :
  map_Forall (λ k _, ToLower k = k) (override v1) → config v1 = ∅ →
  config v3 = insensitivise toCaseInsensitiveValue (viper_AllSettings v1) →
  override v3 = override v1 ∨ override v3 = ∅ →
  override v1 !! ToLower key = Some (toCaseInsensitiveValue x) →
  viper_GetString key v3 = (match x with VString s => s | _ => EmptyString end) ∧
  viper_GetStringMap key v3 =
    (match x with VStringMap m => copyAndInsensitiviseMap m | _ => ∅ end).
Proof.
  intros Hlow Hcfg Hcfg3 Hov Hkey.
  unfold viper_GetString, viper_GetStringMap, viper_find.
  destruct Hov as [-> | ->].
  - rewrite Hkey. by destruct x.
  - rewrite lookup_empty, Hcfg3.
    rewrite insensitivise_lower_keys by by apply AllSettings_keys_lower.
    rewrite lookup_fmap, lookup_AllSettings, Hkey, Hcfg, lookup_empty.
    destruct x as [s|m]; simpl; [done|]. unfold nonempty.
    case_decide as Hempty; simpl; [by rewrite Hempty|].
    by rewrite copyAndInsensitiviseMap_idemp.
Qed.

Lemma lookup_assemble iM ic oM oc va tr eh :
  let doc := assemble iM ic oM oc va tr eh in
  doc !! "inputMethod" = Some (VString iM) ∧
  doc !! "outputMethod" = Some (VString oM) ∧
  doc !! "inputconfig" = Some (VStringMap ic) ∧
  doc !! "outputconfig" = Some (VStringMap oc).
Proof.
  unfold assemble. split; [|split; [|split]].
  - apply lookup_insert_eq.
  - rewrite lookup_insert_ne by discriminate. apply lookup_insert_eq.
  - do 2 (rewrite lookup_insert_ne by discriminate). apply lookup_insert_eq.
  - do 3 (rewrite lookup_insert_ne by discriminate). apply lookup_insert_eq.
Qed.

Lemma lowered_copy m : lowered m (copyAndInsensitiviseMap m).
Proof.
  split; [apply insensitivise_dom|].
  intros k x Hk Huniq. apply (insensitivise_lookup id _ _ _ Hk Huniq).
Qed.

(** C1 (as amended). Let [SetupConfigInteractively] return a document after
    writing config.yaml from a store that read no file before, where the
    document and what the store held hold plain keys and plain texts only
    (field names in ASCII, answers of printable characters not beginning with
    white space; the whole store goes into the file, and the file has to be
    read back).  Loading config.yaml, in the same process or in a new one,
    succeeds and gives a document with the same inputMethod and outputMethod,
    whose inputconfig and outputconfig have as keys the lower-cased keys of
    the document's, each key that stays alone after lower-casing bound to the
    string entered. *)
Theorem LoadConfig_after_saveConfig reg w doc w1 w2 :
  Dynamic.SetupConfigInteractively reg w = (Ok doc, w1) →
  "config.yaml" ∉ readonly w →
  plain_settings doc →
  plain_settings (override (viper w)) →
  map_Forall (λ k _, ToLower k = k) (override (viper w)) →
  config (viper w) = ∅ →
  disk w2 = disk w1 →
  override (viper w2) = override (viper w1) ∨ override (viper w2) = ∅ →
  ∃ loaded w3 inputconfig outputconfig inputconfig' outputconfig',
    Dynamic.LoadConfig "config.yaml" w2 = (Ok loaded, w3) ∧
    loaded !! "inputMethod" = doc !! "inputMethod" ∧
    loaded !! "outputMethod" = doc !! "outputMethod" ∧
    doc !! "inputconfig" = Some (VStringMap inputconfig) ∧
    loaded !! "inputconfig" = Some (VStringMap inputconfig') ∧
    doc !! "outputconfig" = Some (VStringMap outputconfig) ∧
    loaded !! "outputconfig" = Some (VStringMap outputconfig') ∧
    lowered inputconfig inputconfig' ∧ lowered outputconfig outputconfig'.
Proof.
  intros Hrun Hrw _ _ Hlow Hcfg Hdisk Hov.
  destruct (SetupConfigInteractively_phases reg w _ w1 Hrun)
    as (rest & evs0 & Hp & Hq & Hany).
  destruct (Hq doc eq_refl) as [(iM & ic & oM & oc & va & tr & eh & Hdoc) _].
  specialize (Hany (viper w) (disk w) (readonly w)).
  rewrite world_eta, Hrun in Hany. injection Hany as Hw1.
  rewrite saveConfig_world, setAll_world in Hw1.
  rewrite decide_False in Hw1 by done. simpl in Hw1.
  set (o1 := map_fold (λ key val nm, <[ToLower key := toCaseInsensitiveValue val]> nm)
               (override (viper w)) doc) in Hw1.
  set (v1 := mkViper (configFile (viper w)) o1 (config (viper w))) in Hw1.
  assert (viper w1 = v1) as Hv1 by by rewrite Hw1.
  assert (disk w1 !! "config.yaml" = Some (Parsed (viper_AllSettings v1))) as Hfile.
  { rewrite Hw1. simpl. apply lookup_insert_eq. }
  rewrite <-Hdisk in Hfile.
  destruct (LoadConfig_parsed _ _ _ Hfile) as (w3 & Hload & Hv3).
  assert (∀ key x, key ∈ document_keys → doc !! key = Some x →
            o1 !! ToLower key = Some (toCaseInsensitiveValue x)) as Hset.
  { intros key x Hkey Hx.
    apply (fold_lower_lookup toCaseInsensitiveValue _ _ _ _ Hx).
    intros k' Hk' Hl. apply document_keys_distinct; [done| |done].
    by rewrite Hdoc, dom_assemble in Hk'. }
  assert (∀ key x, key ∈ document_keys → doc !! key = Some x →
            viper_GetString key (viper w3) = (match x with VString s => s | _ => EmptyString end) ∧
            viper_GetStringMap key (viper w3) =
              (match x with VStringMap m => copyAndInsensitiviseMap m | _ => ∅ end))
    as Hget.
  { intros key x Hkey Hx. apply (find_after_reload v1).
    - by apply fold_lower_keys.
    - done.
    - by rewrite Hv3.
    - rewrite Hv3. simpl. rewrite Hv1 in Hov. exact Hov.
    - by apply Hset. }
  destruct (lookup_assemble iM ic oM oc va tr eh) as (HiM & HoM & Hic & Hoc).
  rewrite <-Hdoc in HiM, HoM, Hic, Hoc.
  assert ("inputMethod" ∈ document_keys) as Hk1 by compute_done.
  assert ("outputMethod" ∈ document_keys) as Hk2 by compute_done.
  assert ("inputconfig" ∈ document_keys) as Hk3 by compute_done.
  assert ("outputconfig" ∈ document_keys) as Hk4 by compute_done.
  destruct (Hget _ _ Hk1 HiM) as [HgiM _].
  destruct (Hget _ _ Hk2 HoM) as [HgoM _].
  destruct (Hget _ _ Hk3 Hic) as [_ Hgic].
  destruct (Hget _ _ Hk4 Hoc) as [_ Hgoc].
  rewrite HgiM, HgoM, Hgic, Hgoc in Hload.
  eexists _, w3, ic, oc, (copyAndInsensitiviseMap ic), (copyAndInsensitiviseMap oc).
  split; [exact Hload|]. rewrite HiM, HoM.
  destruct (lookup_assemble iM (copyAndInsensitiviseMap ic) oM
              (copyAndInsensitiviseMap oc)
              (viper_GetString "validations" (viper w3))
              (viper_GetString "transformations" (viper w3))
              (viper_GetStringMap "errorhandling" (viper w3)))
    as (HiM' & HoM' & Hic' & Hoc').
  split; [exact HiM'|]. split; [exact HoM'|]. split; [exact Hic|].
  split; [exact Hic'|]. split; [exact Hoc|]. split; [exact Hoc'|].
  split; apply lowered_copy.
Qed.

(** The worked session, loaded again in the same process. *)
Lemma LoadConfig_after_saveConfig_witness :
  ∃ loaded w3 inputconfig outputconfig inputconfig' outputconfig',
    Dynamic.LoadConfig "config.yaml"
      (Dynamic.SetupConfigInteractively demo_registry (fresh_world demo_script)).2
      = (Ok loaded, w3) ∧
    loaded !! "inputMethod" = demo_document !! "inputMethod" ∧
    loaded !! "outputMethod" = demo_document !! "outputMethod" ∧
    demo_document !! "inputconfig" = Some (VStringMap inputconfig) ∧
    loaded !! "inputconfig" = Some (VStringMap inputconfig') ∧
    demo_document !! "outputconfig" = Some (VStringMap outputconfig) ∧
    loaded !! "outputconfig" = Some (VStringMap outputconfig') ∧
    lowered inputconfig inputconfig' ∧ lowered outputconfig outputconfig'.
Proof.
  apply (LoadConfig_after_saveConfig demo_registry (fresh_world demo_script)
           demo_document
           (Dynamic.SetupConfigInteractively demo_registry (fresh_world demo_script)).2
           (Dynamic.SetupConfigInteractively demo_registry (fresh_world demo_script)).2).
  - rewrite <-demo_session. apply surjective_pairing.
  - apply not_elem_of_empty.
  - compute_done.
  - apply map_Forall_empty.
  - apply map_Forall_empty.
  - reflexivity.
  - reflexivity.
  - left. reflexivity.
Defined.

(** The same file loaded by a new process. *)
Lemma demo_reload_fresh :
  (Dynamic.LoadConfig "config.yaml"
     (mkWorld [] [] viper_New
        (disk (Dynamic.SetupConfigInteractively demo_registry
                 (fresh_world demo_script)).2) ∅)).1
    = Ok demo_reloaded.
Proof. compute_done. Qed.

(** C1 as stated fails: the source of the worked session has the field Path.
    The document holds the value under Path; the document loaded from the
    file just written, in the same process or in a new one, holds it under
    path, so the key sets differ and Path is not bound. *)
Lemma LoadConfig_after_saveConfig_loses_case :
  (Dynamic.SetupConfigInteractively demo_registry (fresh_world demo_script)).1
    = Ok demo_document ∧
  (Dynamic.LoadConfig "config.yaml"
     (Dynamic.SetupConfigInteractively demo_registry (fresh_world demo_script)).2).1
    = Ok demo_reloaded ∧
  (Dynamic.LoadConfig "config.yaml"
     (mkWorld [] [] viper_New
        (disk (Dynamic.SetupConfigInteractively demo_registry
                 (fresh_world demo_script)).2) ∅)).1
    = Ok demo_reloaded ∧
  demo_document !! "inputconfig" = Some (VStringMap {[ "Path" := "/in.csv" ]}) ∧
  demo_reloaded !! "inputconfig" = Some (VStringMap {[ "path" := "/in.csv" ]}) ∧
  dom ({[ "path" := "/in.csv" ]} : gmap string string)
    ≠ dom ({[ "Path" := "/in.csv" ]} : gmap string string) ∧
  ({[ "path" := "/in.csv" ]} : gmap string string) !! "Path" = None.
Proof.
  split; [exact demo_session|]. split; [exact demo_reload|].
  split; [exact demo_reload_fresh|]. repeat split; compute_done.
Qed.

(** * Further properties of the package *)

(** ** Mode selection *)

(** X1. [AskForMode] shows one selection and reads one reply; it returns one
    of the two modes, or the prompt's error behind the prefix "failed to
    select application mode: "; it leaves the settings store and the file
    system alone. *)
Theorem AskForMode_outcome w :
  same_store w (AskForMode w).2 ∧
  stdin (AskForMode w).2 = tail (stdin w) ∧
  (∃ r, trace (AskForMode w).2 =
          trace w ++ [EvSelect "Choose Application Mode"
                        ["Start HTTP Server"; "Use CLI"] r]) ∧
  match (AskForMode w).1 with
  | Ok mode => mode = "Start HTTP Server" ∨ mode = "Use CLI"
  | Err e => ∃ cause, e = fmt_Errorf "failed to select application mode: " cause
  end.
Proof.
  unfold AskForMode, wrapping, Select_Run.
  destruct (choice _ _) as [mode|e] eqn:Hchoice; simpl.
  - split; [by repeat split|]. split; [done|]. split; [eauto|].
    unfold choice in Hchoice. destruct (head (stdin w)) as [[text|e]|]; [|done..].
    case_decide as Hin; [|done]. injection Hchoice as <-.
    apply elem_of_cons in Hin as [->|Hin]; [by left|].
    apply list_elem_of_singleton in Hin as ->. by right.
  - split; [by repeat split|]. split; [done|]. split; eauto.
Qed.

(** ** Failures while collecting *)

Lemma readRules_loop_failed ruleType label (lines : list string) : ∀ rules w tl e,
  Forall (λ line, line ≠ EmptyString) lines →
  stdin w = (Entered <$> lines) ++ tl →
  answer (head tl) = Err e →
  Dynamic.readRules_loop ruleType label rules w =
    (Err (fmt_Errorf ("failed to read " +:+ ruleType +:+ ": ") e),
     {| stdin := tail tl;
        trace := trace w ++ ((λ line, EvPrompt label (Ok line)) <$> lines)
                         ++ [EvPrompt label (Err e)];
        viper := viper w; disk := disk w; readonly := readonly w |}).
Proof.
  induction lines as [|line lines IH]; intros rules w tl e Hne Hin Htl;
    rewrite readRules_loop_unfold; unfold Prompt_Run, emit, pop_stdin;
    rewrite Hin; simpl.
  - by rewrite Htl.
  - apply Forall_cons in Hne as [Hline Hne].
    rewrite decide_False by done.
    rewrite (IH _ _ tl e Hne) by done. simpl. by rewrite <-!app_assoc.
Qed.

(** X2. No partial rule text: when, after any number of non-empty lines, a
    prompt of [readRules] fails (the user aborts, or the input ends before an
    empty line), the result is that prompt's error behind the prefix "failed
    to read <ruleType>: "; the lines entered so far are consumed and lost. *)
Theorem readRules_failed_prompt ruleType (lines : list string) tl e w :
  Forall (λ line, line ≠ EmptyString) lines →
  stdin w = (Entered <$> lines) ++ tl →
  answer (head tl) = Err e →
  ∃ w', Dynamic.readRules ruleType w =
          (Err (fmt_Errorf ("failed to read " +:+ ruleType +:+ ": ") e), w') ∧
        stdin w' = tail tl ∧
        length (trace w') = length (trace w) + S (length lines) ∧
        same_store w w'.
Proof.
  intros Hne Hin Htl. unfold Dynamic.readRules.
  rewrite (readRules_loop_failed _ _ lines EmptyString w tl e Hne Hin Htl).
  eexists. split; [reflexivity|]. simpl. split; [reflexivity|].
  split; [|by repeat split].
  rewrite !length_app, length_fmap. simpl. lia.
Qed.

(** One rule is entered and then the input ends; one rule is entered and then
    the user interrupts. *)
Lemma readRules_failed_prompt_witness :
  (∃ w', Dynamic.readRules "validations" (fresh_world [Entered "a>0"]) =
           (Err (fmt_Errorf "failed to read validations: " ErrEOF), w') ∧
         stdin w' = [] ∧ length (trace w') = 2 ∧
         same_store (fresh_world [Entered "a>0"]) w') ∧
  (∃ w', Dynamic.readRules "validations"
           (fresh_world [Entered "a>0"; Aborted ErrInterrupt; Entered "b<10"]) =
           (Err (fmt_Errorf "failed to read validations: " ErrInterrupt), w') ∧
         stdin w' = [Entered "b<10"] ∧ length (trace w') = 2 ∧
         same_store (fresh_world [Entered "a>0"; Aborted ErrInterrupt; Entered "b<10"])
           w').
Proof.
  assert (Forall (λ line : string, line ≠ EmptyString) ["a>0"]) as Hne.
  { repeat constructor; discriminate. }
  split.
  - exact (readRules_failed_prompt "validations" ["a>0"] [] ErrEOF
             (fresh_world [Entered "a>0"]) Hne eq_refl eq_refl).
  - exact (readRules_failed_prompt "validations" ["a>0"]
             [Aborted ErrInterrupt; Entered "b<10"] ErrInterrupt
             (fresh_world [Entered "a>0"; Aborted ErrInterrupt; Entered "b<10"])
             Hne eq_refl eq_refl).
Defined.

Lemma readFields_failed fields : ∀ (texts : list string) config0 w tl e field,
  fields !! length texts = Some field →
  stdin w = (Entered <$> texts) ++ tl →
  answer (head tl) = Err e →
  Dynamic.readFields fields config0 w =
    (Err (fmt_Errorf ("failed to get value for field " +:+ Name field +:+ ": ") e),
     {| stdin := tail tl;
        trace := trace w ++ zip_with field_prompt fields texts
                         ++ [EvPrompt ("Enter " +:+ Name field +:+ " (" +:+
                                       Type_String (FieldType field) +:+ ")") (Err e)];
        viper := viper w; disk := disk w; readonly := readonly w |}).
Proof.
  induction fields as [|f fields IH]; intros texts config0 w tl e field Hfield Hin Htl.
  - by rewrite lookup_nil in Hfield.
  - destruct texts as [|text texts].
    + simpl in Hfield, Hin. injection Hfield as <-. simpl.
      unfold bind, wrapping, Prompt_Run, emit, pop_stdin.
      rewrite Hin, Htl. reflexivity.
    + simpl in Hfield, Hin.
      pose proof (IH texts (<[Name f := text]> config0)
                    (emit (field_prompt f text) (pop_stdin w)) tl e field Hfield)
        as Hrun.
      simpl in Hrun. rewrite Hin in Hrun. specialize (Hrun eq_refl Htl).
      simpl. unfold bind, wrapping, Prompt_Run. rewrite Hin. simpl.
      unfold field_prompt in Hrun. rewrite Hrun. simpl.
      by rewrite <-!app_assoc.
Qed.

(** X3. No partial field map: when the instance is a struct and the prompt of
    its k-th field fails after k-1 answers, [readIntegrationFields] returns
    that prompt's error behind "failed to get value for field <name>: ",
    having shown exactly k prompts; the answers given before are lost. *)
Theorem readIntegrationFields_failed_prompt reg method (isSource : bool)
    (v : Value) (texts : list string) tl e field w :
  (if isSource then GetSource reg method else GetDestination reg method) = Some v →
  Value_Kind (indirect v) = Struct →
  Value_Fields (indirect v) !! length texts = Some field →
  stdin w = (Entered <$> texts) ++ tl →
  answer (head tl) = Err e →
  ∃ w', Dynamic.readIntegrationFields reg method isSource w =
          (Err (fmt_Errorf ("failed to get value for field " +:+ Name field +:+ ": ") e),
           w') ∧
        stdin w' = tail tl ∧
        length (trace w') = length (trace w) + S (length texts) ∧
        same_store w w'.
Proof.
  intros Hreg Hkind Hfield Hin Htl. unfold Dynamic.readIntegrationFields.
  rewrite Hreg. fold (indirect v). rewrite decide_False by (by intros []).
  rewrite (readFields_failed _ texts ∅ w tl e field Hfield Hin Htl).
  eexists. split; [reflexivity|]. simpl. split; [reflexivity|].
  split; [|by repeat split].
  rewrite !length_app, length_zip_with. simpl.
  apply lookup_lt_Some in Hfield. lia.
Qed.

(** The destination of the worked session: the first field is answered, the
    prompt of the second is interrupted. *)
Lemma readIntegrationFields_failed_prompt_witness :
  ∃ w', Dynamic.readIntegrationFields demo_registry "SQL" false
          (fresh_world [Entered "postgres://x"; Aborted ErrInterrupt]) =
          (Err (fmt_Errorf "failed to get value for field Table: " ErrInterrupt), w') ∧
        stdin w' = [] ∧ length (trace w') = 2 ∧
        same_store (fresh_world [Entered "postgres://x"; Aborted ErrInterrupt]) w'.
Proof.
  exact (readIntegrationFields_failed_prompt demo_registry "SQL" false
           (PtrTo (StructOf [ {| Name := "DSN"; FieldType := string_type |};
                              {| Name := "Table"; FieldType := string_type |} ]))
           ["postgres://x"] [Aborted ErrInterrupt] ErrInterrupt
           {| Name := "Table"; FieldType := string_type |}
           (fresh_world [Entered "postgres://x"; Aborted ErrInterrupt])
           eq_refl eq_refl eq_refl eq_refl eq_refl).
Defined.

(** ** The shape of a collected document *)

Lemma Select_Run_Ok label items w a w' :
  Select_Run label items w = (Ok a, w') → a ∈ items.
Proof.
  unfold Select_Run, choice. intros [= Hr _].
  destruct (head (stdin w)) as [[text|e]|]; [|done..].
  case_decide; [|done]. by injection Hr as <-.
Qed.

Lemma readFields_Ok_dom fields : ∀ config0 w config w',
  Dynamic.readFields fields config0 w = (Ok config, w') →
  dom config = dom config0 ∪ list_to_set (Name <$> fields).
Proof.
  induction fields as [|field fields IH]; intros config0 w config w'; simpl.
  - intros [= <- _]. by rewrite (right_id_L ∅ (∪)).
  - intros [(text & w1 & _ & Hrest)|(e & _ & [=])]%bind_inv.
    rewrite (IH _ _ _ _ Hrest), dom_insert_L.
    rewrite (comm_L (∪) {[Name field]} (dom config0)).
    by rewrite (assoc_L (∪)).
Qed.

Lemma readIntegrationFields_Ok reg method (isSource : bool) w config w' :
  Dynamic.readIntegrationFields reg method isSource w = (Ok config, w') →
  ∃ v, (if isSource then GetSource reg method else GetDestination reg method) = Some v ∧
       Value_Kind (indirect v) = Struct ∧
       dom config = list_to_set (Name <$> Value_Fields (indirect v)).
Proof.
  unfold Dynamic.readIntegrationFields.
  destruct (if isSource then _ else _) as [v|]; [|done].
  fold (indirect v). case_decide as Hkind; [done|]. intros Hrun.
  exists v. split; [done|]. split.
  - by destruct (decide (Value_Kind (indirect v) = Struct)).
  - rewrite (readFields_Ok_dom _ _ _ _ _ Hrun), dom_empty_L.
    by rewrite (left_id_L ∅ (∪)).
Qed.

Lemma readRules_loop_Ok ruleType label : ∀ rules w text w',
  Dynamic.readRules_loop ruleType label rules w = (Ok text, w') →
  ∃ lines, Forall (λ line, line ≠ EmptyString) lines ∧
           text = rules +:+ join_lines lines.
Proof.
  intros rules w. remember (length (stdin w)) as n eqn:Hn.
  revert rules w Hn. induction n as [n IH] using lt_wf_ind.
  intros rules w Hn text w'. rewrite readRules_loop_unfold.
  destruct (Prompt_Run label w) as [[line|e] w1] eqn:Hrun; [|done].
  case_decide as Hline.
  - intros [= <- _]. exists []. split; [done|]. simpl. by rewrite append_nil_r.
  - intros Hloop.
    assert (length (stdin w1) < n) as Hlt.
    { subst n. injection Hrun as Ha <-. simpl.
      destruct (stdin w); simpl in *; [discriminate | lia]. }
    destruct (IH _ Hlt _ _ eq_refl _ _ Hloop) as (lines & Hne & ->).
    exists (line :: lines). split; [by constructor|].
    simpl. by rewrite !append_assoc.
Qed.

Lemma readErrorHandlingConfig_Ok w errorhandling w' :
  Dynamic.readErrorHandlingConfig w = (Ok errorhandling, w') →
  ∃ strategy, errorhandling = {[ "strategy" := strategy ]}.
Proof.
  unfold Dynamic.readErrorHandlingConfig.
  intros [(strategy & w1 & _ & [= <- _])|(e & _ & [=])]%bind_inv. eauto.
Qed.

Lemma wrapping_Ok {A} prefix (m : M A) w a w' :
  wrapping prefix m w = (Ok a, w') → m w = (Ok a, w').
Proof. by intros [(a' & Hm & [= ->])|(e & _ & [=])]%wrapping_inv. Qed.

(** Sequencing when what the first step returns is known to satisfy [P]. *)
Lemma saves_after_collecting_bind_post {A} (P : A → Prop) Q (m : M A) k :
  collects m →
  (∀ w a w', m w = (Ok a, w') → P a) →
  (∀ a, P a → saves_after_collecting Q (k a)) →
  saves_after_collecting Q (bind m k).
Proof.
  intros Hm HP Hk w r w' Hrun.
  destruct (bind_inv _ _ _ _ _ Hrun) as [(a & w1 & H1 & H2)|(e & H1 & ->)].
  - destruct (Hm _ _ _ H1) as (evs1 & Hp1 & Hf1 & Hany1).
    destruct (Hk a (HP _ _ _ H1) _ _ _ H2) as (rest & evs2 & Hp2 & Hq2 & Hany2).
    assert (trace w1 = trace w ++ evs1) as Ht1.
    { specialize (Hany1 (viper w) (disk w) (readonly w)).
      rewrite world_eta, H1 in Hany1. injection Hany1 as Hany1.
      by rewrite Hany1 at 1. }
    exists rest, (evs1 ++ evs2). split; [by apply Forall_app|]. split.
    + intros doc ->. destruct (Hq2 _ eq_refl) as [HQ Hf2]. split; [done|].
      apply Forall_app. split; [by apply Hf1 | done].
    + intros v d ro. unfold bind. rewrite Hany1, <-Ht1, Hany2, Ht1.
      by rewrite app_assoc.
  - destruct (Hm _ _ _ H1) as (evs1 & Hp1 & Hf1 & Hany1).
    exists (stdin w'), evs1. split; [done|]. split; [done|].
    intros v d ro. unfold bind. by rewrite Hany1.
Qed.

Lemma SetupConfigInteractively_shapes reg :
  saves_after_collecting (well_shaped reg) (Dynamic.SetupConfigInteractively reg).
Proof.
  unfold Dynamic.SetupConfigInteractively.
  apply (saves_after_collecting_bind_post (λ a, a ∈ GetSources reg));
    [apply collects_wrapping, collects_Select_Run | | intros inputMethod HiM].
  { intros w a w' Hrun%wrapping_Ok%Select_Run_Ok.
    unfold Dynamic.getRegisteredDataSources in Hrun.
    by apply elem_of_elements in Hrun. }
  apply (saves_after_collecting_bind_post (λ ic, ∃ v,
           GetSource reg inputMethod = Some v ∧ Value_Kind (indirect v) = Struct ∧
           dom ic = list_to_set (Name <$> Value_Fields (indirect v))));
    [apply collects_wrapping, collects_readIntegrationFields | |
     intros inputconfig (source & Hsrc & Hsk & Hsd)].
  { intros w a w' Hrun%wrapping_Ok. by apply readIntegrationFields_Ok in Hrun. }
  apply (saves_after_collecting_bind_post (λ a, a ∈ GetDestinations reg));
    [apply collects_wrapping, collects_Select_Run | | intros outputMethod HoM].
  { intros w a w' Hrun%wrapping_Ok%Select_Run_Ok.
    unfold Dynamic.getRegisteredDataDestinations in Hrun.
    by apply elem_of_elements in Hrun. }
  apply (saves_after_collecting_bind_post (λ oc, ∃ v,
           GetDestination reg outputMethod = Some v ∧
           Value_Kind (indirect v) = Struct ∧
           dom oc = list_to_set (Name <$> Value_Fields (indirect v))));
    [apply collects_wrapping, collects_readIntegrationFields | |
     intros outputconfig (destination & Hdst & Hdk & Hdd)].
  { intros w a w' Hrun%wrapping_Ok. by apply readIntegrationFields_Ok in Hrun. }
  apply (saves_after_collecting_bind_post (λ text, ∃ lines,
           Forall (λ line, line ≠ EmptyString) lines ∧ text = join_lines lines));
    [apply collects_wrapping, collects_readRules | |
     intros validations (vlines & Hv & ->)].
  { intros w a w' Hrun%wrapping_Ok. by apply readRules_loop_Ok in Hrun. }
  apply (saves_after_collecting_bind_post (λ text, ∃ lines,
           Forall (λ line, line ≠ EmptyString) lines ∧ text = join_lines lines));
    [apply collects_wrapping, collects_readRules | |
     intros transformations (tlines & Ht & ->)].
  { intros w a w' Hrun%wrapping_Ok. by apply readRules_loop_Ok in Hrun. }
  apply (saves_after_collecting_bind_post (λ eh, ∃ strategy,
           eh = {[ "strategy" := strategy ]}));
    [apply collects_wrapping, collects_readErrorHandlingConfig | |
     intros errorhandling (strategy & ->)].
  { intros w a w' Hrun%wrapping_Ok. by apply readErrorHandlingConfig_Ok in Hrun. }
  apply saves_after_collecting_save.
  by exists inputMethod, inputconfig, outputMethod, outputconfig, vlines, tlines,
            strategy, source, destination.
Qed.

(** X4. Every document [SetupConfigInteractively] returns is well shaped for
    the registry it was collected against: inputMethod is a registered source
    and outputMethod a registered destination, each found by the lookup as a
    struct; inputconfig and outputconfig have exactly the field names of
    those structs as keys; validations and transformations are sequences of
    non-empty lines, each with its newline; errorhandling holds the key
    strategy and nothing else (no quarantine output is ever collected). *)
Theorem SetupConfigInteractively_well_shaped reg w doc w' :
  Dynamic.SetupConfigInteractively reg w = (Ok doc, w') → well_shaped reg doc.
Proof.
  intros Hrun.
  destruct (SetupConfigInteractively_shapes reg w _ w' Hrun)
    as (rest & evs & _ & Hq & _).
  by destruct (Hq doc eq_refl).
Qed.

Lemma SetupConfigInteractively_well_shaped_witness :
  well_shaped demo_registry demo_document.
Proof.
  apply (SetupConfigInteractively_well_shaped demo_registry
           (fresh_world demo_script) demo_document
           (Dynamic.SetupConfigInteractively demo_registry (fresh_world demo_script)).2).
  rewrite <-demo_session. apply surjective_pairing.
Defined.

(** ** A session answered to the end *)

Lemma readIntegrationFields_answered reg method (isSource : bool) (v : Value)
    (texts : list string) rest w :
  (if isSource then GetSource reg method else GetDestination reg method) = Some v →
  Value_Kind (indirect v) = Struct →
  length texts = length (Value_Fields (indirect v)) →
  stdin w = (Entered <$> texts) ++ rest →
  ∃ config,
    Dynamic.readIntegrationFields reg method isSource w =
      (Ok config,
       {| stdin := rest;
          trace := trace w ++ zip_with field_prompt (Value_Fields (indirect v)) texts;
          viper := viper w; disk := disk w; readonly := readonly w |}) ∧
    holds_answers (Value_Fields (indirect v)) texts config.
Proof.
  intros Hreg Hkind Hlen Hin. unfold Dynamic.readIntegrationFields.
  rewrite Hreg. fold (indirect v). rewrite decide_False by (by intros []).
  destruct (readFields_answered _ texts ∅ w rest Hlen Hin)
    as (config & Hrun & Hdom & _ & Hnew).
  exists config. split; [exact Hrun|]. split; [|exact Hnew].
  by rewrite Hdom, dom_empty_L, (left_id_L ∅ (∪)).
Qed.

(** X5. A session answered to the end succeeds.  When the reply script names
    a registered source found as a struct, answers each of its fields, does
    the same for a destination, gives validation lines and an empty line,
    transformation lines and an empty line, and a strategy, then
    [SetupConfigInteractively] returns the document assembled from exactly
    these answers (each field name bound to its answer, each rule text the
    lines with their newlines, the strategy verbatim) and reads nothing
    beyond the strategy. *)
Theorem SetupConfigInteractively_answered reg w (source destination : Value)
    (inputMethod outputMethod : string) (itexts otexts vlines tlines : list string)
    (strategy : string) rest :
  inputMethod ∈ GetSources reg →
  GetSource reg inputMethod = Some source →
  Value_Kind (indirect source) = Struct →
  length itexts = length (Value_Fields (indirect source)) →
  outputMethod ∈ GetDestinations reg →
  GetDestination reg outputMethod = Some destination →
  Value_Kind (indirect destination) = Struct →
  length otexts = length (Value_Fields (indirect destination)) →
  Forall (λ line, line ≠ EmptyString) vlines →
  Forall (λ line, line ≠ EmptyString) tlines →
  stdin w = Entered inputMethod :: (Entered <$> itexts) ++
            Entered outputMethod :: (Entered <$> otexts) ++
            (Entered <$> vlines) ++ Entered EmptyString ::
            (Entered <$> tlines) ++ Entered EmptyString ::
            Entered strategy :: rest →
  ∃ inputconfig outputconfig w',
    Dynamic.SetupConfigInteractively reg w =
      (Ok (assemble inputMethod inputconfig outputMethod outputconfig
             (join_lines vlines) (join_lines tlines) {[ "strategy" := strategy ]}),
       w') ∧
    stdin w' = rest ∧
    holds_answers (Value_Fields (indirect source)) itexts inputconfig ∧
    holds_answers (Value_Fields (indirect destination)) otexts outputconfig.
Proof.
  intros HiM Hsrc Hsk Hsl HoM Hdst Hdk Hdl Hv Ht Hin.
  assert (∀ ev, stdin (emit ev (pop_stdin w)) =
            (Entered <$> itexts) ++
            Entered outputMethod :: (Entered <$> otexts) ++
            (Entered <$> vlines) ++ Entered EmptyString ::
            (Entered <$> tlines) ++ Entered EmptyString ::
            Entered strategy :: rest) as Hin1.
  { intros ev. simpl. by rewrite Hin. }
  unfold Dynamic.SetupConfigInteractively, bind, wrapping, Select_Run.
  rewrite Hin. simpl.
  rewrite decide_True
    by (unfold Dynamic.getRegisteredDataSources; by apply elem_of_elements).
  match goal with |- context [Dynamic.readIntegrationFields reg inputMethod true ?w1] =>
    destruct (readIntegrationFields_answered reg inputMethod true source itexts
                _ w1 Hsrc Hsk Hsl (Hin1 _))
      as (inputconfig & Hic & Hia)
  end.
  rewrite Hic. simpl.
  rewrite decide_True
    by (unfold Dynamic.getRegisteredDataDestinations; by apply elem_of_elements).
  match goal with |- context [Dynamic.readIntegrationFields reg outputMethod false ?w1] =>
    destruct (readIntegrationFields_answered reg outputMethod false destination otexts
                ((Entered <$> vlines) ++ Entered EmptyString ::
                 (Entered <$> tlines) ++ Entered EmptyString ::
                 Entered strategy :: rest) w1 Hdst Hdk Hdl eq_refl)
      as (outputconfig & Hoc & Hoa)
  end.
  rewrite Hoc. simpl. unfold Dynamic.readRules.
  match goal with |- context [Dynamic.readRules_loop "validations" ?l EmptyString ?w1] =>
    rewrite (readRules_loop_lines "validations" l vlines EmptyString w1
               ((Entered <$> tlines) ++ Entered EmptyString ::
                Entered strategy :: rest) Hv eq_refl)
  end.
  simpl.
  match goal with |- context [Dynamic.readRules_loop "transformations" ?l EmptyString ?w1] =>
    rewrite (readRules_loop_lines "transformations" l tlines EmptyString w1
               (Entered strategy :: rest) Ht eq_refl)
  end.
  simpl. unfold Dynamic.readErrorHandlingConfig, bind, wrapping, Prompt_Run, exec, ret.
  simpl. exists inputconfig, outputconfig. eexists. split; [reflexivity|].
  split; [|by split].
  rewrite saveConfig_world, setAll_world. by case_decide.
Qed.

(** The worked session. *)
Lemma SetupConfigInteractively_answered_witness :
  ∃ inputconfig outputconfig w',
    Dynamic.SetupConfigInteractively demo_registry (fresh_world demo_script) =
      (Ok (assemble "CSV" inputconfig "SQL" outputconfig
             (join_lines ["not_null(id)"]) (join_lines [])
             {[ "strategy" := "STOP_ON_ERROR" ]}),
       w') ∧
    stdin w' = [] ∧
    holds_answers [ {| Name := "Path"; FieldType := string_type |} ]
      ["/in.csv"] inputconfig ∧
    holds_answers [ {| Name := "DSN"; FieldType := string_type |};
                    {| Name := "Table"; FieldType := string_type |} ]
      ["postgres://x"; "out"] outputconfig.
Proof.
  apply (SetupConfigInteractively_answered demo_registry (fresh_world demo_script)
           (PtrTo (StructOf [ {| Name := "Path"; FieldType := string_type |} ]))
           (PtrTo (StructOf [ {| Name := "DSN"; FieldType := string_type |};
                              {| Name := "Table"; FieldType := string_type |} ]))
           "CSV" "SQL" ["/in.csv"] ["postgres://x"; "out"] ["not_null(id)"] []
           "STOP_ON_ERROR" []).
  - simpl. apply elem_of_singleton_2. reflexivity.
  - reflexivity.
  - reflexivity.
  - reflexivity.
  - simpl. apply elem_of_singleton_2. reflexivity.
  - reflexivity.
  - reflexivity.
  - reflexivity.
  - repeat constructor. discriminate.
  - constructor.
  - reflexivity.
Defined.

(** X6. A destination that is listed but not found ends the run after the
    source was collected: the error is "failed to get fields for output
    method: integration not found in registry", the answers given for the
    source are lost, nothing is stored or written, and the replies after the
    selection stay unread. *)
Theorem SetupConfigInteractively_unknown_destination reg w (source : Value)
    (inputMethod outputMethod : string) (itexts : list string) rest :
  inputMethod ∈ GetSources reg →
  GetSource reg inputMethod = Some source →
  Value_Kind (indirect source) = Struct →
  length itexts = length (Value_Fields (indirect source)) →
  outputMethod ∈ GetDestinations reg →
  GetDestination reg outputMethod = None →
  stdin w = Entered inputMethod :: (Entered <$> itexts) ++
            Entered outputMethod :: rest →
  ∃ w',
    Dynamic.SetupConfigInteractively reg w =
      (Err (fmt_Errorf "failed to get fields for output method: "
              (errors_New "integration not found in registry")), w') ∧
    stdin w' = rest ∧ same_store w w'.
Proof.
  intros HiM Hsrc Hsk Hsl HoM Hdst Hin.
  assert (∀ ev, stdin (emit ev (pop_stdin w)) =
            (Entered <$> itexts) ++ Entered outputMethod :: rest) as Hin1.
  { intros ev. simpl. by rewrite Hin. }
  unfold Dynamic.SetupConfigInteractively, bind, wrapping, Select_Run.
  rewrite Hin. simpl.
  rewrite decide_True
    by (unfold Dynamic.getRegisteredDataSources; by apply elem_of_elements).
  match goal with |- context [Dynamic.readIntegrationFields reg inputMethod true ?w1] =>
    destruct (readIntegrationFields_answered reg inputMethod true source itexts
                _ w1 Hsrc Hsk Hsl (Hin1 _))
      as (inputconfig & Hic & Hia)
  end.
  rewrite Hic. simpl.
  rewrite decide_True
    by (unfold Dynamic.getRegisteredDataDestinations; by apply elem_of_elements).
  unfold Dynamic.readIntegrationFields. rewrite Hdst. simpl.
  eexists. split; [reflexivity|]. by repeat split.
Qed.

Lemma SetupConfigInteractively_unknown_destination_witness :
  ∃ w',
    Dynamic.SetupConfigInteractively half_registry
      (fresh_world [Entered "CSV"; Entered "/in.csv"; Entered "SQL"; Entered "x"]) =
      (Err (fmt_Errorf "failed to get fields for output method: "
              (errors_New "integration not found in registry")), w') ∧
    stdin w' = [Entered "x"] ∧
    same_store
      (fresh_world [Entered "CSV"; Entered "/in.csv"; Entered "SQL"; Entered "x"]) w'.
Proof.
  apply (SetupConfigInteractively_unknown_destination half_registry
           (fresh_world [Entered "CSV"; Entered "/in.csv"; Entered "SQL"; Entered "x"])
           (PtrTo (StructOf [ {| Name := "Path"; FieldType := string_type |} ]))
           "CSV" "SQL" ["/in.csv"] [Entered "x"]).
  - simpl. apply elem_of_singleton_2. reflexivity.
  - reflexivity.
  - reflexivity.
  - reflexivity.
  - simpl. apply elem_of_singleton_2. reflexivity.
  - reflexivity.
  - reflexivity.
Defined.

(** ** Replies and prompts *)

Lemma prompts_app evs1 evs2 : prompts (evs1 ++ evs2) = prompts evs1 + prompts evs2.
Proof. unfold prompts. by rewrite filter_app, length_app. Qed.

Lemma orderly_ret {A} (a : A) : orderly (ret a).
Proof.
  intros w r w' [= <- <-]. exists []. rewrite app_nil_r. split; [done|].
  split; [done|]. intros i ev Hi. by rewrite lookup_nil in Hi.
Qed.

Lemma orderly_fail {A} e : orderly (@fail A e).
Proof.
  intros w r w' [= <- <-]. exists []. rewrite app_nil_r. split; [done|].
  split; [done|]. intros i ev Hi. by rewrite lookup_nil in Hi.
Qed.

Lemma orderly_single (ev : Event) i ev' :
  [ev] !! i = Some ev' → S i = length [ev].
Proof. destruct i as [|i]; [done|]. by rewrite lookup_cons, lookup_nil. Qed.

Lemma orderly_Prompt_Run label : orderly (Prompt_Run label).
Proof.
  intros w r w' [= <- <-]. eexists [_]. split; [reflexivity|]. split.
  - simpl. by destruct (stdin w).
  - intros i ev Hi _. by eapply orderly_single.
Qed.

Lemma orderly_Select_Run label items : orderly (Select_Run label items).
Proof.
  intros w r w' [= <- <-]. eexists [_]. split; [reflexivity|]. split.
  - simpl. by destruct (stdin w).
  - intros i ev Hi _. by eapply orderly_single.
Qed.

Lemma orderly_wrapping {A} prefix (m : M A) : orderly m → orderly (wrapping prefix m).
Proof.
  intros Hm w r w' [(a & H1 & ->)|(e & H1 & ->)]%wrapping_inv;
    apply (Hm _ _ _ H1).
Qed.

(** What two steps show in sequence, when the first showed no failed prompt
    or nothing follows it. *)
Lemma orderly_seq (w w1 w' : World) evs1 evs2 :
  trace w1 = trace w ++ evs1 → stdin w1 = drop (prompts evs1) (stdin w) →
  Forall (λ ev, ¬ prompt_failed ev) evs1 →
  trace w' = trace w1 ++ evs2 → stdin w' = drop (prompts evs2) (stdin w1) →
  (∀ i ev, evs2 !! i = Some ev → prompt_failed ev → S i = length evs2) →
  ∃ evs, trace w' = trace w ++ evs ∧
         stdin w' = drop (prompts evs) (stdin w) ∧
         ∀ i ev, evs !! i = Some ev → prompt_failed ev → S i = length evs.
Proof.
  intros Ht1 Hs1 Hok1 Ht2 Hs2 Hlast2. exists (evs1 ++ evs2).
  split; [by rewrite Ht2, Ht1, app_assoc|]. split.
  - rewrite Hs2, Hs1, drop_drop, prompts_app. done.
  - intros i ev Hi Hbad. apply lookup_app_Some in Hi as [Hi|[Hge Hi]].
    + exfalso. rewrite Forall_lookup in Hok1. by apply (Hok1 i ev).
    + rewrite length_app. specialize (Hlast2 _ _ Hi Hbad). lia.
Qed.

Lemma orderly_bind {A B} (m : M A) (k : A → M B) :
  collects m → orderly m → (∀ a, orderly (k a)) → orderly (bind m k).
Proof.
  intros Hc Hm Hk w r w' [(a & w1 & H1 & H2)|(e & H1 & ->)]%bind_inv.
  - destruct (Hc _ _ _ H1) as (evs0 & _ & Hok & Hany).
    destruct (Hm _ _ _ H1) as (evs1 & Ht1 & Hs1 & _).
    assert (evs0 = evs1) as ->.
    { specialize (Hany (viper w) (disk w) (readonly w)).
      rewrite world_eta, H1 in Hany. injection Hany as Hany.
      rewrite Hany in Ht1. simpl in Ht1. by apply app_inv_head in Ht1. }
    destruct (Hk _ _ _ _ H2) as (evs2 & Ht2 & Hs2 & Hlast2).
    apply (orderly_seq w w1 w' evs1 evs2); [done|done|by apply Hok|done..].
  - apply (Hm _ _ _ H1).
Qed.

Lemma orderly_readFields fields config : orderly (Dynamic.readFields fields config).
Proof.
  revert config. induction fields as [|field rest IH]; intros config; simpl.
  - apply orderly_ret.
  - apply orderly_bind; [| |by intros].
    + apply collects_wrapping, collects_Prompt_Run.
    + apply orderly_wrapping, orderly_Prompt_Run.
Qed.

Lemma orderly_readIntegrationFields reg method isSource :
  orderly (Dynamic.readIntegrationFields reg method isSource).
Proof.
  unfold Dynamic.readIntegrationFields.
  destruct (if isSource then _ else _) as [v|]; [|apply orderly_fail].
  case_decide; [apply orderly_fail | apply orderly_readFields].
Qed.

Lemma orderly_readRules_loop ruleType label rules :
  orderly (Dynamic.readRules_loop ruleType label rules).
Proof.
  intros w. remember (length (stdin w)) as n eqn:Hn.
  revert rules w Hn. induction n as [n IH] using lt_wf_ind.
  intros rules w Hn r w'. rewrite readRules_loop_unfold.
  destruct (Prompt_Run label w) as [[line|e] w1] eqn:Hrun.
  - case_decide.
    + intros [= <- <-]. apply (orderly_Prompt_Run label _ _ _ Hrun).
    + intros Hloop.
      assert (length (stdin w1) < n) as Hlt.
      { subst n. injection Hrun as Ha <-. simpl.
        destruct (stdin w); simpl in *; [discriminate | lia]. }
      destruct (collects_Prompt_Run label _ _ _ Hrun) as (evs0 & _ & Hok & Hany).
      destruct (orderly_Prompt_Run label _ _ _ Hrun) as (evs1 & Ht1 & Hs1 & _).
      assert (evs0 = evs1) as ->.
      { specialize (Hany (viper w) (disk w) (readonly w)).
        rewrite world_eta, Hrun in Hany. injection Hany as Hany.
        rewrite Hany in Ht1. simpl in Ht1. by apply app_inv_head in Ht1. }
      destruct (IH _ Hlt _ _ eq_refl _ _ Hloop) as (evs2 & Ht2 & Hs2 & Hlast2).
      apply (orderly_seq w w1 w' evs1 evs2); [done|done|by apply Hok|done..].
  - intros [= <- <-]. apply (orderly_Prompt_Run label _ _ _ Hrun).
Qed.

Lemma orderly_readErrorHandlingConfig : orderly Dynamic.readErrorHandlingConfig.
Proof.
  apply orderly_bind; [| |intros; apply orderly_ret].
  - apply collects_wrapping, collects_Prompt_Run.
  - apply orderly_wrapping, orderly_Prompt_Run.
Qed.

Lemma orderly_saveConfig doc : orderly (exec (Dynamic.saveConfig doc) (ret doc)).
Proof.
  intros w r w' [= <- <-]. rewrite saveConfig_world, setAll_world.
  case_decide; simpl; eexists [_]; (split; [reflexivity|]);
    (split; [reflexivity|]); intros i ev Hi _; by eapply orderly_single.
Qed.

Lemma orderly_SetupConfigInteractively reg :
  orderly (Dynamic.SetupConfigInteractively reg).
Proof.
  unfold Dynamic.SetupConfigInteractively.
  apply orderly_bind;
    [apply collects_wrapping, collects_Select_Run
    |apply orderly_wrapping, orderly_Select_Run | intros inputMethod].
  apply orderly_bind;
    [apply collects_wrapping, collects_readIntegrationFields
    |apply orderly_wrapping, orderly_readIntegrationFields | intros inputconfig].
  apply orderly_bind;
    [apply collects_wrapping, collects_Select_Run
    |apply orderly_wrapping, orderly_Select_Run | intros outputMethod].
  apply orderly_bind;
    [apply collects_wrapping, collects_readIntegrationFields
    |apply orderly_wrapping, orderly_readIntegrationFields | intros outputconfig].
  apply orderly_bind;
    [apply collects_wrapping, collects_readRules
    |apply orderly_wrapping, orderly_readRules_loop | intros validations].
  apply orderly_bind;
    [apply collects_wrapping, collects_readRules
    |apply orderly_wrapping, orderly_readRules_loop | intros transformations].
  apply orderly_bind;
    [apply collects_wrapping, collects_readErrorHandlingConfig
    |apply orderly_wrapping, orderly_readErrorHandlingConfig | intros errorhandling].
  apply orderly_saveConfig.
Qed.

(** X7. Fail fast: in a run of [SetupConfigInteractively] a prompt that fails
    is the last thing shown; no further prompt follows it and nothing is
    printed after it. *)
Theorem SetupConfigInteractively_stops_at_failure reg w evs i ev :
  trace (Dynamic.SetupConfigInteractively reg w).2 = trace w ++ evs →
  evs !! i = Some ev → prompt_failed ev → S i = length evs.
Proof.
  intros Htrace Hi Hbad.
  destruct (orderly_SetupConfigInteractively reg w _ _ (surjective_pairing _))
    as (evs' & Ht & _ & Hlast).
  rewrite Ht in Htrace. apply app_inv_head in Htrace as ->. by apply (Hlast i ev).
Qed.

(** The interrupted session: the fourth event is the failed prompt, and there
    are four events. *)
Lemma SetupConfigInteractively_stops_at_failure_witness :
  4 = length (trace (Dynamic.SetupConfigInteractively demo_registry
                       (fresh_world interrupted_script)).2).
Proof.
  apply (SetupConfigInteractively_stops_at_failure demo_registry
           (fresh_world interrupted_script) _ 3
           (EvPrompt "Enter DSN (string)" (Err ErrInterrupt))).
  - reflexivity.
  - compute_done.
  - exact I.
Defined.

(** X8. One reply per prompt: [SetupConfigInteractively] takes from the
    input exactly as many replies as it shows prompts, in order; what it
    leaves is the input without that prefix, whether it succeeds or fails. *)
Theorem SetupConfigInteractively_reads_one_reply_per_prompt reg w evs :
  trace (Dynamic.SetupConfigInteractively reg w).2 = trace w ++ evs →
  stdin (Dynamic.SetupConfigInteractively reg w).2 = drop (prompts evs) (stdin w).
Proof.
  intros Htrace.
  destruct (orderly_SetupConfigInteractively reg w _ _ (surjective_pairing _))
    as (evs' & Ht & Hs & _).
  rewrite Ht in Htrace. by apply app_inv_head in Htrace as ->.
Qed.

(** The worked session with two more replies in the input: nine prompts, and
    the two replies are left. *)
Lemma SetupConfigInteractively_reads_one_reply_per_prompt_witness :
  stdin (Dynamic.SetupConfigInteractively demo_registry
           (fresh_world (demo_script ++ [Entered "x"; Entered "y"]))).2 =
  drop 9 (demo_script ++ [Entered "x"; Entered "y"]).
Proof.
  pose proof (SetupConfigInteractively_reads_one_reply_per_prompt demo_registry
                (fresh_world (demo_script ++ [Entered "x"; Entered "y"]))
                (trace (Dynamic.SetupConfigInteractively demo_registry
                   (fresh_world (demo_script ++ [Entered "x"; Entered "y"]))).2)
                (eq_sym (app_nil_l _))) as Hread.
  assert (prompts (trace (Dynamic.SetupConfigInteractively demo_registry
            (fresh_world (demo_script ++ [Entered "x"; Entered "y"]))).2) = 9)
    as Hnine by compute_done.
  rewrite Hnine in Hread. exact Hread.
Defined.

(** ** Saving *)

(** Two entries of a map at different places have different keys. *)
Lemma map_to_list_keys_differ {A} (m : gmap string A) j1 j2 k1 x1 k2 x2 :
  j1 ≠ j2 → map_to_list m !! j1 = Some (k1, x1) →
  map_to_list m !! j2 = Some (k2, x2) → k1 ≠ k2.
Proof.
  intros Hj H1 H2 ->. apply Hj.
  apply (NoDup_lookup _ j1 j2 k2 (NoDup_fst_map_to_list m)).
  - by rewrite list_lookup_fmap, H1.
  - by rewrite list_lookup_fmap, H2.
Qed.

Lemma map_to_list_key_in_dom {A} (m : gmap string A) j k x :
  map_to_list m !! j = Some (k, x) → k ∈ dom m.
Proof.
  intros Hj. apply elem_of_dom. exists x.
  apply elem_of_map_to_list. by apply (list_elem_of_lookup_2 _ j).
Qed.

(** When no two keys meet after lower-casing, the lower-cased copy of a map
    is the same in whatever order the entries are visited. *)
Lemma lowerEach_any_order {A} (f : A → A) (m : gmap string A) entries :
  distinct_lowered m → entries ≡ₚ map_to_list m →
  lowerEach f entries = insensitivise f m.
Proof.
  intros Hdist Hperm. unfold lowerEach, insensitivise. rewrite map_fold_foldr.
  symmetry. apply (foldr_permutation (=)); [solve_proper | | by symmetry].
  intros j1 [k1 x1] j2 [k2 x2] nm Hj H1 H2. simpl.
  apply insert_insert_ne. intros Hlow.
  apply (map_to_list_keys_differ m j1 j2 k1 x1 k2 x2 Hj H1 H2).
  symmetry. apply (Hdist k1); [by eapply map_to_list_key_in_dom
                              | by eapply map_to_list_key_in_dom | done].
Qed.

(** Likewise for the loop of [saveConfig]. *)
Lemma setEach_any_order doc entries w :
  distinct_lowered doc → entries ≡ₚ map_to_list doc →
  setEach entries w = Dynamic.setAll doc w.
Proof.
  intros Hdist Hperm. unfold setEach, Dynamic.setAll. rewrite map_fold_foldr.
  symmetry. apply (foldr_permutation (=)); [solve_proper | | by symmetry].
  intros j1 [k1 x1] j2 [k2 x2] w0 Hj H1 H2. simpl.
  unfold viper_Set, set_viper. simpl. do 2 f_equal.
  apply insert_insert_ne. intros Hlow.
  apply (map_to_list_keys_differ doc j1 j2 k1 x1 k2 x2 Hj H1 H2).
  symmetry. apply (Hdist k1); [by eapply map_to_list_key_in_dom
                              | by eapply map_to_list_key_in_dom | done].
Qed.

Section fold_twice.
Context {A : Type} (f : A → A).

Let ins : string * A → gmap string A → gmap string A :=
  uncurry (λ key val nm, <[ToLower key := f val]> nm).

Lemma foldr_ins_lookup_ext l (m m' : gmap string A) j :
  m !! j = m' !! j → foldr ins m l !! j = foldr ins m' l !! j.
Proof.
  intros Hj. induction l as [|[k x] l IH]; simpl; [done|].
  destruct (decide (ToLower k = j)) as [<-|Hne].
  - by rewrite !lookup_insert_eq.
  - by rewrite !lookup_insert_ne.
Qed.

Lemma foldr_ins_twice l : ∀ b, foldr ins (foldr ins b l) l = foldr ins b l.
Proof.
  induction l as [|[k x] l IH]; intros b; simpl; [done|].
  apply map_eq. intros j.
  destruct (decide (ToLower k = j)) as [<-|Hne].
  - by rewrite !lookup_insert_eq.
  - rewrite !lookup_insert_ne by done. rewrite <-(IH b) at 2.
    apply foldr_ins_lookup_ext. by rewrite lookup_insert_ne.
Qed.

Lemma fold_lower_twice (base m : gmap string A) :
  map_fold (λ key val (nm : gmap string A), <[ToLower key := f val]> nm)
    (map_fold (λ key val (nm : gmap string A), <[ToLower key := f val]> nm) base m) m =
  map_fold (λ key val (nm : gmap string A), <[ToLower key := f val]> nm) base m.
Proof. rewrite !map_fold_foldr. apply foldr_ins_twice. Qed.
End fold_twice.

(** What [saveConfig] leaves in the store and on disk. *)
Lemma saveConfig_effect doc w :
  stdin (Dynamic.saveConfig doc w) = stdin w ∧
  readonly (Dynamic.saveConfig doc w) = readonly w ∧
  viper (Dynamic.saveConfig doc w) =
    mkViper (configFile (viper w))
      (map_fold (λ key val nm, <[ToLower key := toCaseInsensitiveValue val]> nm)
         (override (viper w)) doc)
      (config (viper w)) ∧
  disk (Dynamic.saveConfig doc w) =
    if decide ("config.yaml" ∈ readonly w) then disk w
    else <["config.yaml" := Parsed (viper_AllSettings (viper (Dynamic.saveConfig doc w)))]>
           (disk w).
Proof.
  rewrite saveConfig_world, setAll_world. by case_decide.
Qed.

Lemma setAll_idempotent doc w :
  Dynamic.setAll doc (Dynamic.setAll doc w) = Dynamic.setAll doc w.
Proof.
  rewrite !setAll_world. simpl. by rewrite fold_lower_twice.
Qed.

(** X9. Saving is idempotent on a document whose keys the store tells apart
    (plain keys, no two meeting after lower-casing, at top level and within
    each map): saving it a second time leaves the settings store and the file
    system exactly as the first save left them (only a second line is
    printed).  On such a document the order in which the loop visits the
    entries is immaterial: setting them in any order gives the store that
    [saveConfig] leaves, and setting them again in any other order changes
    nothing. *)
Theorem saveConfig_idempotent doc w :
  unambiguous doc →
  viper (Dynamic.saveConfig doc (Dynamic.saveConfig doc w)) =
    viper (Dynamic.saveConfig doc w) ∧
  disk (Dynamic.saveConfig doc (Dynamic.saveConfig doc w)) =
    disk (Dynamic.saveConfig doc w) ∧
  ∀ first second,
    first ≡ₚ map_to_list doc → second ≡ₚ map_to_list doc →
    viper (setEach first w) = viper (Dynamic.saveConfig doc w) ∧
    setEach second (setEach first w) = setEach first w.
Proof.
  intros [[_ Hdist] _].
  destruct (saveConfig_effect doc w) as (_ & Hro1 & Hv1 & Hd1).
  destruct (saveConfig_effect doc (Dynamic.saveConfig doc w)) as (_ & _ & Hv2 & Hd2).
  assert (viper (Dynamic.saveConfig doc (Dynamic.saveConfig doc w)) =
          viper (Dynamic.saveConfig doc w)) as Hv.
  { rewrite Hv2, Hv1. simpl. by rewrite fold_lower_twice. }
  split; [exact Hv|]. split.
  - rewrite Hd2, Hv, Hro1. clear Hd2.
    destruct (decide ("config.yaml" ∈ readonly w)) as [Hro|Hro]; [done|].
    rewrite Hd1. by rewrite insert_insert_eq.
  - intros first second Hfirst Hsecond.
    rewrite (setEach_any_order doc first w Hdist Hfirst).
    rewrite (setEach_any_order doc second _ Hdist Hsecond).
    split; [|apply setAll_idempotent].
    rewrite Hv1, setAll_world. reflexivity.
Qed.

(** The document of the worked session, saved twice; and its entries set in
    the opposite order. *)
Lemma saveConfig_idempotent_witness :
  viper (Dynamic.saveConfig demo_document
           (Dynamic.saveConfig demo_document (fresh_world []))) =
    viper (Dynamic.saveConfig demo_document (fresh_world [])) ∧
  disk (Dynamic.saveConfig demo_document
          (Dynamic.saveConfig demo_document (fresh_world []))) =
    disk (Dynamic.saveConfig demo_document (fresh_world [])) ∧
  viper (setEach (reverse (map_to_list demo_document)) (fresh_world [])) =
    viper (Dynamic.saveConfig demo_document (fresh_world [])).
Proof.
  destruct (saveConfig_idempotent demo_document (fresh_world []))
    as (Hv & Hd & Hany); [compute_done|].
  split; [exact Hv|]. split; [exact Hd|].
  apply (Hany (reverse (map_to_list demo_document)) (map_to_list demo_document));
    [apply reverse_Permutation | reflexivity].
Defined.

Lemma AllSettings_lower_keys v :
  map_Forall (λ k _, ToLower k = k) (override v) →
  map_Forall (λ k _, ToLower k = k) (config v) →
  map_Forall (λ k _, ToLower k = k) (viper_AllSettings v).
Proof.
  intros Ho Hc k x. rewrite lookup_AllSettings.
  destruct (override v !! k) as [y|] eqn:Hk; [intros _; by apply (Ho k y)|].
  destruct (config v !! k) as [z|] eqn:Hk'; [intros _; by apply (Hc k z)|done].
Qed.

(** X10. For a document and a store that hold plain keys and plain texts
    only, the file [saveConfig] writes has lower-case keys only (given a
    store whose keys are lower-case, as viper keeps them), and every string
    of the document is in it under its lower-cased key, provided no other key
    of the document lower-cases to the same. *)
Theorem saveConfig_writes_lower_case_keys doc w :
  "config.yaml" ∉ readonly w →
  plain_settings doc →
  plain_settings (override (viper w)) → plain_settings (config (viper w)) →
  map_Forall (λ k _, ToLower k = k) (override (viper w)) →
  map_Forall (λ k _, ToLower k = k) (config (viper w)) →
  ∃ settings,
    disk (Dynamic.saveConfig doc w) !! "config.yaml" = Some (Parsed settings) ∧
    map_Forall (λ k _, ToLower k = k) settings ∧
    ∀ key s, doc !! key = Some (VString s) →
             (∀ k, k ∈ dom doc → ToLower k = ToLower key → k = key) →
             settings !! ToLower key = Some (VString s).
Proof.
  intros Hrw _ _ _ Ho Hc. destruct (saveConfig_effect doc w) as (_ & _ & Hv & Hd).
  rewrite decide_False in Hd by done.
  eexists. split; [rewrite Hd; apply lookup_insert_eq|]. rewrite Hv. split.
  - apply AllSettings_lower_keys; simpl; [by apply fold_lower_keys | done].
  - intros key s Hkey Huniq. rewrite lookup_AllSettings. simpl.
    by rewrite (fold_lower_lookup toCaseInsensitiveValue _ _ _ _ Hkey Huniq).
Qed.

Lemma saveConfig_writes_lower_case_keys_witness :
  ∃ settings,
    disk (Dynamic.saveConfig {[ "inputMethod" := VString "CSV" ]} (fresh_world []))
      !! "config.yaml" = Some (Parsed settings) ∧
    map_Forall (λ k _, ToLower k = k) settings ∧
    settings !! "inputmethod" = Some (VString "CSV").
Proof.
  destruct (saveConfig_writes_lower_case_keys
              {[ "inputMethod" := VString "CSV" ]} (fresh_world [])
              (not_elem_of_empty _)
              (proj2 (map_Forall_singleton _ "inputMethod" (VString "CSV"))
                     (conj eq_refl eq_refl))
              (map_Forall_empty _) (map_Forall_empty _)
              (map_Forall_empty _) (map_Forall_empty _))
    as (settings & Hfile & Hlow & Hget).
  exists settings. split; [exact Hfile|]. split; [exact Hlow|].
  apply (Hget "inputMethod" "CSV"); [apply lookup_singleton_eq|].
  intros k Hk _. rewrite dom_singleton_L in Hk. by apply elem_of_singleton in Hk.
Defined.

(** X11. Settings that the store holds from elsewhere are written back: for
    a document and a store that hold plain keys and plain texts only, a
    string found in the store (set earlier, or read from a file by
    [LoadConfig]) under a plain key that the document does not address is in
    the file that [saveConfig] writes. *)
Theorem saveConfig_writes_back_found_settings doc w key s :
  "config.yaml" ∉ readonly w →
  plain_key key = true → plain_settings doc →
  plain_settings (override (viper w)) → plain_settings (config (viper w)) →
  viper_find key (viper w) = Some (VString s) →
  (∀ k, k ∈ dom doc → ToLower k ≠ ToLower key) →
  ∃ settings,
    disk (Dynamic.saveConfig doc w) !! "config.yaml" = Some (Parsed settings) ∧
    settings !! ToLower key = Some (VString s).
Proof.
  intros Hrw _ _ _ _ Hkey Hother.
  destruct (saveConfig_effect doc w) as (_ & _ & Hv & Hd).
  rewrite decide_False in Hd by done.
  eexists. split; [rewrite Hd; apply lookup_insert_eq|].
  rewrite Hv, lookup_AllSettings. simpl.
  rewrite (fold_lower_other toCaseInsensitiveValue _ _ _ Hother).
  unfold viper_find in Hkey.
  destruct (override (viper w) !! ToLower key) as [x|]; simplify_eq/=; [done|].
  by rewrite Hkey.
Qed.

(** A batch size read from a file earlier survives the save of a document
    that does not mention it. *)
Lemma saveConfig_writes_back_found_settings_witness :
  ∃ settings,
    disk (Dynamic.saveConfig {[ "inputMethod" := VString "CSV" ]} loaded_world)
      !! "config.yaml" = Some (Parsed settings) ∧
    settings !! "batchsize" = Some (VString "100").
Proof.
  apply (saveConfig_writes_back_found_settings
           {[ "inputMethod" := VString "CSV" ]} loaded_world "batchsize" "100").
  - apply not_elem_of_empty.
  - reflexivity.
  - by apply map_Forall_singleton.
  - apply map_Forall_empty.
  - compute_done.
  - reflexivity.
  - intros k Hk. rewrite dom_singleton_L in Hk.
    apply elem_of_singleton in Hk. rewrite Hk. discriminate.
Defined.

(** ** The two-key variant *)

Lemma Simple_saveConfig_effect doc w :
  stdin (Simple.saveConfig doc w) = stdin w ∧
  viper (Simple.saveConfig doc w) =
    mkViper (configFile (viper w))
      (<["outputmethod" := VString (Simple.index doc "outputMethod")]>
       (<["inputmethod" := VString (Simple.index doc "inputMethod")]>
        (override (viper w))))
      (config (viper w)) ∧
  disk (Simple.saveConfig doc w) =
    if decide ("config.yaml" ∈ readonly w) then disk w
    else <["config.yaml" := Parsed (viper_AllSettings (viper (Simple.saveConfig doc w)))]>
           (disk w).
Proof.
  unfold Simple.saveConfig, viper_WriteConfigAs. simpl. by case_decide.
Qed.

(** X12. What the two-key [saveConfig] writes: the file holds the two
    methods of the map (the empty string for a missing one) and, under every
    other key, whatever the settings store held before, so settings read from
    a file earlier are written back. *)
Theorem Simple_saveConfig_file doc w :
  "config.yaml" ∉ readonly w →
  ∃ settings,
    disk (Simple.saveConfig doc w) !! "config.yaml" = Some (Parsed settings) ∧
    settings !! "inputmethod" = Some (VString (Simple.index doc "inputMethod")) ∧
    settings !! "outputmethod" = Some (VString (Simple.index doc "outputMethod")) ∧
    ∀ k, k ≠ "inputmethod" → k ≠ "outputmethod" →
         settings !! k = viper_AllSettings (viper w) !! k.
Proof.
  intros Hrw. destruct (Simple_saveConfig_effect doc w) as (_ & Hv & Hd).
  rewrite decide_False in Hd by done.
  eexists. split; [rewrite Hd; apply lookup_insert_eq|]. rewrite Hv.
  split; [|split].
  - rewrite lookup_AllSettings. simpl.
    rewrite lookup_insert_ne by discriminate. by rewrite lookup_insert_eq.
  - rewrite lookup_AllSettings. simpl. by rewrite lookup_insert_eq.
  - intros k Hk1 Hk2. rewrite !lookup_AllSettings. simpl.
    by rewrite !lookup_insert_ne.
Qed.

(** Rules read from a file earlier stay in the file when the two-key variant
    saves a map with an input method only. *)
Lemma Simple_saveConfig_file_witness :
  ∃ settings,
    disk (Simple.saveConfig {[ "inputMethod" := "CSV" ]} loaded_world)
      !! "config.yaml" = Some (Parsed settings) ∧
    settings !! "inputmethod" = Some (VString "CSV") ∧
    settings !! "outputmethod" = Some (VString EmptyString) ∧
    settings !! "validations" = Some (VString "a>0").
Proof.
  destruct (Simple_saveConfig_file {[ "inputMethod" := "CSV" ]} loaded_world
              (not_elem_of_empty _)) as (settings & Hfile & Hin & Hout & Hrest).
  exists settings. split; [exact Hfile|]. split; [exact Hin|]. split; [exact Hout|].
  rewrite (Hrest "validations") by discriminate. reflexivity.
Defined.

(** A string that [Set] wrote comes back from [GetString] when the file
    written from the store is read again, in the same process or a new one. *)
Lemma GetString_after_reload v1 v3 key s :
  map_Forall (λ k _, ToLower k = k) (override v1) →
  map_Forall (λ k _, ToLower k = k) (config v1) →
  config v3 = insensitivise toCaseInsensitiveValue (viper_AllSettings v1) →
  override v3 = override v1 ∨ override v3 = ∅ →
  override v1 !! ToLower key = Some (VString s) →
  viper_GetString key v3 = s.
Proof.
  intros Ho Hc Hcfg3 Hov Hkey. unfold viper_GetString, viper_find.
  destruct Hov as [-> | ->].
  - by rewrite Hkey.
  - rewrite lookup_empty, Hcfg3.
    rewrite insensitivise_lower_keys by by apply AllSettings_lower_keys.
    by rewrite lookup_fmap, lookup_AllSettings, Hkey.
Qed.

(** X13. Round trip in the two-key variant, for methods that are plain text
    and a store that holds plain keys and plain texts only (the whole store
    goes into the file, and the file has to be read back).  After
    [saveConfig] has written config.yaml, [LoadConfig] on that file, in the
    same process or in a new one, returns the two methods of the saved map: a
    missing method comes back as the empty string and any other key of the
    map is dropped, so a map with exactly the two keys comes back
    unchanged. *)
Theorem Simple_LoadConfig_after_saveConfig doc w w2 :
  "config.yaml" ∉ readonly w →
  plain_text (Simple.index doc "inputMethod") = true →
  plain_text (Simple.index doc "outputMethod") = true →
  plain_settings (override (viper w)) → plain_settings (config (viper w)) →
  map_Forall (λ k _, ToLower k = k) (override (viper w)) →
  map_Forall (λ k _, ToLower k = k) (config (viper w)) →
  disk w2 = disk (Simple.saveConfig doc w) →
  override (viper w2) = override (viper (Simple.saveConfig doc w)) ∨
    override (viper w2) = ∅ →
  ∃ w3,
    Simple.LoadConfig "config.yaml" w2 =
      (Ok (<["inputMethod" := Simple.index doc "inputMethod"]>
           (<["outputMethod" := Simple.index doc "outputMethod"]> ∅)), w3) ∧
    (dom doc = {[ "inputMethod"; "outputMethod" ]} →
     <["inputMethod" := Simple.index doc "inputMethod"]>
       (<["outputMethod" := Simple.index doc "outputMethod"]> ∅) = doc).
Proof.
  intros Hrw _ _ _ _ Ho Hc Hdisk Hov.
  destruct (Simple_saveConfig_effect doc w) as (_ & Hv1 & Hd1).
  rewrite decide_False in Hd1 by done.
  assert (disk w2 !! "config.yaml" =
          Some (Parsed (viper_AllSettings (viper (Simple.saveConfig doc w)))))
    as Hfile by (rewrite Hdisk, Hd1; apply lookup_insert_eq).
  assert (map_Forall (λ k _, ToLower k = k)
            (override (viper (Simple.saveConfig doc w)))) as Ho1.
  { rewrite Hv1. simpl. by repeat apply map_Forall_insert_2. }
  assert (map_Forall (λ k _, ToLower k = k)
            (config (viper (Simple.saveConfig doc w)))) as Hc1.
  { by rewrite Hv1. }
  set (v3 := mkViper "config.yaml" (override (viper w2))
               (insensitivise toCaseInsensitiveValue
                  (viper_AllSettings (viper (Simple.saveConfig doc w))))).
  assert (viper_GetString "inputMethod" v3 = Simple.index doc "inputMethod") as Hin.
  { apply (GetString_after_reload (viper (Simple.saveConfig doc w)));
      [done|done|done|done|].
    rewrite Hv1. simpl. rewrite lookup_insert_ne by discriminate.
    apply lookup_insert_eq. }
  assert (viper_GetString "outputMethod" v3 = Simple.index doc "outputMethod") as Hout.
  { apply (GetString_after_reload (viper (Simple.saveConfig doc w)));
      [done|done|done|done|].
    rewrite Hv1. apply lookup_insert_eq. }
  exists (set_viper v3 w2). split.
  - unfold Simple.LoadConfig, exec, bind, viper_ReadInConfig, viper_SetConfigFile, ret.
    simpl. rewrite Hfile. simpl. fold v3. by rewrite Hin, Hout.
  - intros Hdom. apply map_eq. intros k. unfold Simple.index.
    destruct (decide (k = "inputMethod")) as [->|Hk1].
    { rewrite lookup_insert_eq.
      destruct (doc !! "inputMethod") as [a|] eqn:Ha; [done|].
      apply not_elem_of_dom in Ha. rewrite Hdom in Ha. exfalso. apply Ha.
      apply elem_of_union. left. by apply elem_of_singleton. }
    rewrite lookup_insert_ne by done.
    destruct (decide (k = "outputMethod")) as [->|Hk2].
    { rewrite lookup_insert_eq.
      destruct (doc !! "outputMethod") as [b|] eqn:Hb; [done|].
      apply not_elem_of_dom in Hb. rewrite Hdom in Hb. exfalso. apply Hb.
      apply elem_of_union. right. by apply elem_of_singleton. }
    rewrite lookup_insert_ne by done. rewrite lookup_empty. symmetry.
    apply not_elem_of_dom. rewrite Hdom. intros Hmem.
    apply elem_of_union in Hmem as [Hmem|Hmem]; by apply elem_of_singleton in Hmem.
Qed.

(** A map without an output method but with a stray key, saved and loaded by
    a new process. *)
Lemma Simple_LoadConfig_after_saveConfig_witness :
  ∃ w3,
    Simple.LoadConfig "config.yaml"
      (mkWorld [] [] viper_New
         (disk (Simple.saveConfig
                  (<["inputMethod" := "CSV"]> {[ "note" := "draft" ]})
                  (fresh_world []))) ∅) =
      (Ok (<["inputMethod" := "CSV"]> (<["outputMethod" := EmptyString]> ∅)), w3).
Proof.
  destruct (Simple_LoadConfig_after_saveConfig
              (<["inputMethod" := "CSV"]> {[ "note" := "draft" ]})
              (fresh_world [])
              (mkWorld [] [] viper_New
                 (disk (Simple.saveConfig
                          (<["inputMethod" := "CSV"]> {[ "note" := "draft" ]})
                          (fresh_world []))) ∅))
    as (w3 & Hload & _).
  - apply not_elem_of_empty.
  - compute_done.
  - compute_done.
  - apply map_Forall_empty.
  - apply map_Forall_empty.
  - apply map_Forall_empty.
  - apply map_Forall_empty.
  - reflexivity.
  - right. reflexivity.
  - exists w3. exact Hload.
Defined.

Lemma Select_Run_Ok_reads label items w a w' :
  Select_Run label items w = (Ok a, w') →
  stdin w = Entered a :: stdin w' ∧ same_store w w'.
Proof.
  unfold Select_Run, choice. destruct (stdin w) as [|[text|e] rest] eqn:Hin;
    simpl; [done| |done].
  case_decide; [|done]. intros [= -> <-]. simpl. rewrite Hin. by repeat split.
Qed.

(** X14. The two-key wizard.  When [SetupConfigInteractively] of the two-key
    variant returns a map, it read two replies, the first naming one of the
    four listed inputs and the second one of the five listed outputs, and the
    map binds inputMethod and outputMethod to them and nothing else.  When it
    returns an error, that is the failed selection's error behind "failed to
    get input method: " or "failed to get output method: ", and the settings
    store and the file system are untouched. *)
Theorem Simple_SetupConfigInteractively_outcome w r w' :
  Simple.SetupConfigInteractively w = (r, w') →
  match r with
  | Ok doc =>
      ∃ a b, a ∈ simple_inputs ∧ b ∈ simple_outputs ∧
             doc = <["inputMethod" := a]> (<["outputMethod" := b]> ∅) ∧
             stdin w = Entered a :: Entered b :: stdin w'
  | Err e =>
      same_store w w' ∧
      ∃ cause, e = fmt_Errorf "failed to get input method: " cause ∨
               e = fmt_Errorf "failed to get output method: " cause
  end.
Proof.
  unfold Simple.SetupConfigInteractively. fold simple_inputs simple_outputs.
  intros [(a & w1 & H1 & Hrest)|(e & H1 & ->)]%bind_inv.
  - apply wrapping_Ok in H1. pose proof (Select_Run_Ok _ _ _ _ _ H1) as Ha.
    destruct (Select_Run_Ok_reads _ _ _ _ _ H1) as [Hin1 Hs1].
    apply bind_inv in Hrest as [(b & w2 & H2 & Hrest)|(e & H2 & ->)].
    + apply wrapping_Ok in H2. pose proof (Select_Run_Ok _ _ _ _ _ H2) as Hb.
      destruct (Select_Run_Ok_reads _ _ _ _ _ H2) as [Hin2 _].
      unfold exec, ret in Hrest. injection Hrest as <- <-.
      exists a, b. split; [done|]. split; [done|]. split; [done|].
      destruct (Simple_saveConfig_effect
                  (<["inputMethod" := a]> (<["outputMethod" := b]> ∅)) w2)
        as (-> & _). by rewrite Hin1, Hin2.
    + apply wrapping_inv in H2 as [(? & _ & [=])|(cause & H2 & [= ->])].
      split; [|eauto]. revert H2. unfold Select_Run. intros [= _ <-].
      destruct Hs1 as (Hv & Hd & Hro). by repeat split.
  - apply wrapping_inv in H1 as [(? & _ & [=])|(cause & H1 & [= ->])].
    split; [|eauto]. revert H1. unfold Select_Run. intros [= _ <-].
    by repeat split.
Qed.

(** CSV is chosen, then Kafka Queue; and a session that ends after the first
    choice. *)
Lemma Simple_SetupConfigInteractively_outcome_witness :
  (∃ a b, a ∈ simple_inputs ∧ b ∈ simple_outputs ∧
          <["inputMethod" := "CSV"]> (<["outputMethod" := "Kafka Queue"]> ∅) =
            <["inputMethod" := a]> (<["outputMethod" := b]> (∅ : gmap string string)) ∧
          [Entered "CSV"; Entered "Kafka Queue"] =
            Entered a :: Entered b ::
              stdin (Simple.saveConfig
                       (<["inputMethod" := "CSV"]>
                          (<["outputMethod" := "Kafka Queue"]> ∅))
                       (mkWorld []
                          [EvSelect "Select Input Method" simple_inputs (Ok "CSV");
                           EvSelect "Select Output Method" simple_outputs
                             (Ok "Kafka Queue")]
                          viper_New ∅ ∅))) ∧
  same_store (fresh_world [Entered "CSV"])
    (Simple.SetupConfigInteractively (fresh_world [Entered "CSV"])).2.
Proof.
  split.
  - exact (Simple_SetupConfigInteractively_outcome
             (fresh_world [Entered "CSV"; Entered "Kafka Queue"])
             (Ok (<["inputMethod" := "CSV"]> (<["outputMethod" := "Kafka Queue"]> ∅)))
             _ eq_refl).
  - exact (proj1 (Simple_SetupConfigInteractively_outcome
                    (fresh_world [Entered "CSV"])
                    (Err (fmt_Errorf "failed to get output method: " ErrEOF))
                    _ eq_refl)).
Defined.

(** ** Loading *)



Lemma lookup_assemble_rest iM ic oM oc va tr eh :
  let doc := assemble iM ic oM oc va tr eh in
  doc !! "validations" = Some (VString va) ∧
  doc !! "transformations" = Some (VString tr) ∧
  doc !! "errorhandling" = Some (VStringMap eh).
Proof.
  unfold assemble. split; [|split].
  - do 4 (rewrite lookup_insert_ne by discriminate). apply lookup_insert_eq.
  - do 5 (rewrite lookup_insert_ne by discriminate). apply lookup_insert_eq.
  - do 6 (rewrite lookup_insert_ne by discriminate). apply lookup_insert_eq.
Qed.

(** X16. Loading never fails on a file that parses, whatever it holds.
    [LoadConfig] then returns a document with all seven keys, logs one line
    naming the file, and leaves the [override] register and the file system
    alone; a key under which neither the store nor the file holds anything
    comes back with its zero value (the empty string, or the empty map for
    inputconfig, outputconfig and errorhandling).  That the file holds
    nothing under a key is decided up to case, for a file whose top-level
    keys are ASCII. *)
Theorem LoadConfig_parsed_file path w settings :
  disk w !! path = Some (Parsed settings) →
  ∃ doc w',
    Dynamic.LoadConfig path w = (Ok doc, w') ∧
    dom doc = document_keys ∧
    trace w' = trace w ++ [EvInfof ("Configuration loaded from " +:+ path)] ∧
    stdin w' = stdin w ∧ disk w' = disk w ∧
    override (viper w') = override (viper w) ∧
    ∀ key, key ∈ document_keys →
      override (viper w) !! ToLower key = None →
      (∀ k, k ∈ dom settings →
            ascii_text k = true ∧ ToLower k ≠ ToLower key) →
      doc !! key = Some (zero_value key).
Proof.
  intros Hfile. destruct (LoadConfig_parsed _ _ _ Hfile) as (w' & Hload & Hv).
  assert ((Dynamic.LoadConfig path w).2 =
          emit (EvInfof ("Configuration loaded from " +:+ path))
            (set_viper (mkViper path (override (viper w))
                          (insensitivise toCaseInsensitiveValue settings)) w)) as Hw.
  { unfold Dynamic.LoadConfig, exec, bind, viper_ReadInConfig, viper_SetConfigFile.
    simpl. by rewrite Hfile. }
  rewrite Hload in Hw. simpl in Hw.
  eexists _, w'. split; [exact Hload|]. split; [apply dom_assemble|].
  split; [by rewrite Hw|]. split; [by rewrite Hw|]. split; [by rewrite Hw|].
  split; [by rewrite Hw|].
  intros key Hkey Hov Hnone.
  assert (viper_find key (viper w') = None) as Hfind.
  { rewrite Hv. unfold viper_find. simpl. rewrite Hov.
    apply insensitivise_lookup_None. intros k Hk. by apply Hnone. }
  assert (viper_GetString key (viper w') = EmptyString ∧
          viper_GetStringMap key (viper w') = ∅) as [Hs Hm].
  { unfold viper_GetString, viper_GetStringMap. by rewrite Hfind. }
  match goal with |- assemble ?iM ?ic ?oM ?oc ?va ?tr ?eh !! _ = _ =>
    destruct (lookup_assemble iM ic oM oc va tr eh) as (H1 & H2 & H3 & H4);
    destruct (lookup_assemble_rest iM ic oM oc va tr eh) as (H5 & H6 & H7)
  end.
  unfold document_keys in Hkey. rewrite !elem_of_union, !elem_of_singleton in Hkey.
  destruct Hkey as [[[[[[-> | ->] | ->] | ->] | ->] | ->] | ->].
  - rewrite H1, Hs. reflexivity.
  - rewrite H2, Hs. reflexivity.
  - rewrite H3, Hm. reflexivity.
  - rewrite H4, Hm. reflexivity.
  - rewrite H5, Hs. reflexivity.
  - rewrite H6, Hs. reflexivity.
  - rewrite H7, Hm. reflexivity.
Qed.

(** The stored file has no output method and no error handling. *)
Lemma LoadConfig_parsed_file_witness :
  ∃ doc w',
    Dynamic.LoadConfig "config.yaml" stored_world = (Ok doc, w') ∧
    dom doc = document_keys ∧
    trace w' = [EvInfof "Configuration loaded from config.yaml"] ∧
    doc !! "outputMethod" = Some (VString EmptyString) ∧
    doc !! "errorhandling" = Some (VStringMap ∅).
Proof.
  destruct (LoadConfig_parsed_file "config.yaml" stored_world stored_file
              (lookup_singleton_eq _ _))
    as (doc & w' & Hload & Hdom & Htrace & _ & _ & _ & Hzero).
  assert (∀ key, ToLower "InputMethod" ≠ key ∧ ToLower "validations" ≠ key ∧
                 ToLower "inputconfig" ≠ key →
                 ∀ k, k ∈ dom stored_file → ascii_text k = true ∧ ToLower k ≠ key)
    as Hkeys.
  { intros key (? & ? & ?) k. unfold stored_file.
    rewrite !dom_insert_L, dom_empty_L.
    rewrite !elem_of_union, !elem_of_singleton, elem_of_empty.
    intros [->|[->|[->|[]]]]; (split; [reflexivity | done]). }
  exists doc, w'. split; [exact Hload|]. split; [exact Hdom|].
  split; [exact Htrace|]. split.
  - apply (Hzero "outputMethod"); [compute_done | reflexivity |].
    apply Hkeys. repeat split; discriminate.
  - apply (Hzero "errorhandling"); [compute_done | reflexivity |].
    apply Hkeys. repeat split; discriminate.
Defined.

(** X17. What was set in this process shadows the file: when the [override]
    register holds an input method (as after a save), [LoadConfig] returns
    it, whatever input method the file it reads holds. *)
Theorem LoadConfig_prefers_set_values path w settings s :
  disk w !! path = Some (Parsed settings) →
  override (viper w) !! "inputmethod" = Some (VString s) →
  ∃ doc w', Dynamic.LoadConfig path w = (Ok doc, w') ∧
            doc !! "inputMethod" = Some (VString s).
Proof.
  intros Hfile Hset. destruct (LoadConfig_parsed _ _ _ Hfile) as (w' & Hload & Hv).
  eexists _, w'. split; [exact Hload|].
  match goal with |- assemble ?iM ?ic ?oM ?oc ?va ?tr ?eh !! _ = _ =>
    destruct (lookup_assemble iM ic oM oc va tr eh) as (-> & _)
  end.
  rewrite Hv. unfold viper_GetString, viper_find. cbn [override].
  change (ToLower "inputMethod") with "inputmethod". by rewrite Hset.
Qed.

(** After saving Kafka as the input method, a file that says CSV is loaded as
    Kafka. *)
Lemma LoadConfig_prefers_set_values_witness :
  ∃ doc w',
    Dynamic.LoadConfig "config.yaml"
      (mkWorld [] []
         (mkViper EmptyString {[ "inputmethod" := VString "Kafka" ]} ∅)
         {[ "config.yaml" := Parsed stored_file ]} ∅) = (Ok doc, w') ∧
    doc !! "inputMethod" = Some (VString "Kafka").
Proof.
  exact (LoadConfig_prefers_set_values "config.yaml"
           (mkWorld [] []
              (mkViper EmptyString {[ "inputmethod" := VString "Kafka" ]} ∅)
              {[ "config.yaml" := Parsed stored_file ]} ∅)
           stored_file "Kafka" (lookup_singleton_eq _ _) (lookup_singleton_eq _ _)).
Defined.
